(** * Deadlock-Detector: shallow embedding of [src/main.py]

    The simulator runs one thread per [Processo], one timer thread per
    granted resource and one [SistemaOperacional] thread; every access to
    the shared objects happens inside [with global_lock].  The embedding
    keeps the objects in a store ([Estado]) and turns each lock-protected
    block of the source into one function on that store; the interleaving
    of the threads is the step relation [passo].

    Object references are positions in the two lists the application
    owns: [App.recursos] (aliased by every [Processo.recursos_sistema] and
    by [SistemaOperacional.recursos]) and [App.processos]. *)

From Stdlib Require Import ZArith QArith.
From stdpp Require Import base list strings pretty gmap relations.

#[local] Set Warnings "-clear-no-such-hyp".

(** ** The fragment of [networkx.DiGraph] the detector uses *)

Module nx.

(** Nodes keep their insertion order and carry the value of the [type]
    attribute, if one was given; edges keep their insertion order. *)
Record DiGraph : Type := mkDiGraph {
  nodes : list (string * option string);
  edges : list (string * string)
}.

Definition vazio : DiGraph := {| nodes := []; edges := [] |}.

Definition has_node (G : DiGraph) (n : string) : bool :=
  bool_decide (n ∈ (nodes G).*1).

(** [G.add_node(n, type=t)]: a new node is appended, a known node only
    has its attribute overwritten. *)
Definition add_node (n t : string) (G : DiGraph) : DiGraph :=
  if has_node G n
  then {| nodes := map (λ na, if decide (na.1 = n) then (n, Some t) else na) (nodes G);
          edges := edges G |}
  else {| nodes := nodes G ++ [(n, Some t)]; edges := edges G |}.

(** The implicit node creation of [add_edge]: no attribute. *)
Definition touch_node (n : string) (G : DiGraph) : DiGraph :=
  if has_node G n then G
  else {| nodes := nodes G ++ [(n, None)]; edges := edges G |}.

(** [G.add_edge(u, v)] *)
Definition add_edge (u v : string) (G : DiGraph) : DiGraph :=
  let G := touch_node v (touch_node u G) in
  if bool_decide ((u, v) ∈ edges G) then G
  else {| nodes := nodes G; edges := edges G ++ [(u, v)] |}.

Definition successors (G : DiGraph) (u : string) : list string :=
  (filter (λ e, e.1 = u) (edges G)).*2.

(** [nx.simple_cycles(G)].  The library enumerates every elementary
    circuit once, as the list of its nodes; which node comes first and
    the order of the circuits are left open by the library.  The
    enumeration below roots every circuit at its first node in insertion
    order: from the root [s] it extends a simple path through nodes that
    come after [s] and reports the path when an edge leads back to [s].
    [fora] are the nodes before [s], [path] is the path from [s] to [u]. *)
Fixpoint busca (fuel : nat) (G : DiGraph) (s : string) (fora path : list string)
    (u : string) : list (list string) :=
  match fuel with
  | O => []
  | S fuel' =>
      flat_map (λ v,
        if decide (v = s) then [path]
        else if decide (v ∈ fora ∨ v ∈ path) then []
        else busca fuel' G s fora (path ++ [v]) v) (successors G u)
  end.

Fixpoint ciclos_desde (G : DiGraph) (fora ns : list string) : list (list string) :=
  match ns with
  | [] => []
  | s :: ns' =>
      busca (length (nodes G)) G s fora [s] s ++ ciclos_desde G (fora ++ [s]) ns'
  end.

Definition simple_cycles (G : DiGraph) : list (list string) :=
  ciclos_desde G [] (nodes G).*1.

End nx.

(** ** Data model *)

(** Where a [Processo] thread stands in [run] / [solicitar_recurso]. *)
Inductive Controle : Type :=
  | Ocioso                    (* in [time.sleep], before the next choice *)
  | Solicitando (r : nat)     (* chose [r], not yet inside the lock *)
  | Esperando (r : nat)       (* asleep in [recurso.condicao.wait()] *)
  | Acordado (r : nat).       (* notified, about to test the loop again *)

Global Instance Controle_eq_dec : EqDecision Controle.
Proof. solve_decision. Defined.

Record Recurso : Type := mkRecurso {
  r_id : Z;
  nome : string;
  dono : option nat;          (* the owning [Processo], or [None] *)
  condicao : list nat         (* threads asleep on the condition variable *)
}.

Record Processo : Type := mkProcesso {
  p_id : Z;
  delta_ts : Q;
  delta_tu : Q;
  recursos_posse : list nat;
  recurso_aguardando : option nat;
  running : bool;
  started : bool;             (* [Thread.start] was called *)
  pc : Controle
}.

(** The shared store: the two object lists, the armed release timers
    [(p, r)] and the lines handed to the [Logger] (without time stamp). *)
Record Estado : Type := mkEstado {
  processos : list Processo;
  recursos : list Recurso;
  timers : list (nat * nat);
  log : list string
}.

Definition set_dono (d : option nat) (r : Recurso) : Recurso :=
  {| r_id := r_id r; nome := nome r; dono := d; condicao := condicao r |}.

Definition set_condicao (c : list nat) (r : Recurso) : Recurso :=
  {| r_id := r_id r; nome := nome r; dono := dono r; condicao := c |}.

Definition set_posse (l : list nat) (p : Processo) : Processo :=
  {| p_id := p_id p; delta_ts := delta_ts p; delta_tu := delta_tu p;
     recursos_posse := l; recurso_aguardando := recurso_aguardando p;
     running := running p; started := started p; pc := pc p |}.

Definition set_aguardando (a : option nat) (p : Processo) : Processo :=
  {| p_id := p_id p; delta_ts := delta_ts p; delta_tu := delta_tu p;
     recursos_posse := recursos_posse p; recurso_aguardando := a;
     running := running p; started := started p; pc := pc p |}.

Definition set_pc (c : Controle) (p : Processo) : Processo :=
  {| p_id := p_id p; delta_ts := delta_ts p; delta_tu := delta_tu p;
     recursos_posse := recursos_posse p;
     recurso_aguardando := recurso_aguardando p;
     running := running p; started := started p; pc := c |}.

Definition set_started (b : bool) (p : Processo) : Processo :=
  {| p_id := p_id p; delta_ts := delta_ts p; delta_tu := delta_tu p;
     recursos_posse := recursos_posse p;
     recurso_aguardando := recurso_aguardando p;
     running := running p; started := b; pc := pc p |}.

(** ** [SistemaOperacional.detectar_deadlock] *)

Record Snapshot : Type := mkSnapshot {
  graph : nx.DiGraph;
  cycles : list (list string);
  in_deadlock : list string
}.

Definition no_processo (p : Processo) : string := "P" +:+ pretty (p_id p).
Definition no_recurso (r : Recurso) : string := "R" +:+ pretty (r_id r).

(** The four loops that fill the graph under the lock. *)
Definition grafo_nos_processos (ps : list Processo) (G : nx.DiGraph) : nx.DiGraph :=
  foldl (λ G p, nx.add_node (no_processo p) "processo" G) G ps.

Definition grafo_nos_recursos (rs : list Recurso) (G : nx.DiGraph) : nx.DiGraph :=
  foldl (λ G r, nx.add_node (no_recurso r) "recurso" G) G rs.

(** [if r.dono: G.add_edge(R, P)]; a reference always reaches an object,
    so the [None] lookup branch is never taken on a well-formed store. *)
Definition grafo_arestas_dono (ps : list Processo) (rs : list Recurso)
    (G : nx.DiGraph) : nx.DiGraph :=
  foldl (λ G r,
    match dono r with
    | Some d =>
        match ps !! d with
        | Some q => nx.add_edge (no_recurso r) (no_processo q) G
        | None => G
        end
    | None => G
    end) G rs.

Definition grafo_arestas_espera (ps : list Processo) (rs : list Recurso)
    (G : nx.DiGraph) : nx.DiGraph :=
  foldl (λ G p,
    match recurso_aguardando p with
    | Some a =>
        match rs !! a with
        | Some r => nx.add_edge (no_processo p) (no_recurso r) G
        | None => G
        end
    | None => G
    end) G ps.

Definition construir_grafo (ps : list Processo) (rs : list Recurso) : nx.DiGraph :=
  grafo_arestas_espera ps rs
    (grafo_arestas_dono ps rs
      (grafo_nos_recursos rs (grafo_nos_processos ps nx.vazio))).

(** [in_deadlock]: the set of the cycle nodes whose name starts with P. *)
Definition coletar_processos (cs : list (list string)) : gset string :=
  foldl (λ acc cycle,
    foldl (λ acc node, if String.prefix "P" node then acc ∪ {[node]} else acc)
      acc cycle) ∅ cs.

Definition detectar_deadlock (so : Estado) : Snapshot :=
  let G := construir_grafo (processos so) (recursos so) in
  let cs := nx.simple_cycles G in
  {| graph := G; cycles := cs; in_deadlock := elements (coletar_processos cs) |}.

(** ** The lock-protected blocks of [Processo] *)

(** [list.remove(x)]: drops the first occurrence only. *)
Fixpoint py_remove (x : nat) (l : list nat) : list nat :=
  match l with
  | [] => []
  | y :: l' => if decide (x = y) then l' else y :: py_remove x l'
  end.

(** [random.choice(seq)] is [seq[k]] for the index [k] the generator
    draws below [len(seq)]; the draw is an argument here. *)
Definition choice {A : Type} (l : list A) (k : nat) : option A :=
  l !! (k `mod` length l)%nat.

Definition disponiveis_para_pedir (st : Estado) (me : Processo) : list nat :=
  filter (λ r, r ∉ recursos_posse me) (seq 0 (length (recursos st))).

Definition msg_solicitou (me : Processo) (rc : Recurso) : string :=
  "Processo " +:+ pretty (p_id me) +:+ " SOLICITOU " +:+ nome rc +:+ ".".

Definition msg_bloqueado (ps : list Processo) (me : Processo) (rc : Recurso)
    (d : nat) : string :=
  "Processo " +:+ pretty (p_id me) +:+ " BLOQUEADO por " +:+ nome rc
    +:+ " (Dono: P" +:+ from_option (λ q, pretty (p_id q)) "" (ps !! d) +:+ ").".

Definition msg_pegou (me : Processo) (rc : Recurso) : string :=
  "Processo " +:+ pretty (p_id me) +:+ " PEGOU " +:+ nome rc +:+ ".".

Definition msg_liberou (me : Processo) (rc : Recurso) : string :=
  "Processo " +:+ pretty (p_id me) +:+ " LIBEROU " +:+ nome rc +:+ ".".

(** One turn of the loop of [Processo.run], from the end of the sleep to
    the call of [solicitar_recurso] (whose first line logs the request).
    [None]: the candidate list is empty and the turn ends at [continue]. *)
Definition escolher (st : Estado) (p k : nat) : option nat :=
  match processos st !! p with
  | Some me =>
      let disponiveis := disponiveis_para_pedir st me in
      if bool_decide (disponiveis = []) then None else choice disponiveis k
  | None => None
  end.

Definition run_tick (st : Estado) (p k : nat) : Estado :=
  match processos st !! p, escolher st p k with
  | Some me, Some r =>
      match recursos st !! r with
      | Some rc =>
          {| processos := <[p := set_pc (Solicitando r) me]> (processos st);
             recursos := recursos st;
             timers := timers st;
             log := log st ++ [msg_solicitou me rc] |}
      | None => st
      end
  | _, _ => st
  end.

Inductive Desfecho : Type := Pegou | Bloqueado.

(** The [with global_lock] block of [solicitar_recurso], from the test of
    the [while] to either [wait()] or the end of the block; it runs once
    when the thread arrives and once more after every wake-up.  The
    release timer is armed right after the block. *)
Definition solicitar_recurso (st : Estado) (p r : nat) : Estado * Desfecho :=
  match processos st !! p, recursos st !! r with
  | Some me, Some rc =>
      match dono rc with
      | Some d =>
          ({| processos :=
                <[p := set_pc (Esperando r) (set_aguardando (Some r) me)]> (processos st);
              recursos := <[r := set_condicao (condicao rc ++ [p]) rc]> (recursos st);
              timers := timers st;
              log := log st ++ [msg_bloqueado (processos st) me rc d] |}, Bloqueado)
      | None =>
          ({| processos :=
                <[p := set_pc Ocioso
                         (set_posse (recursos_posse me ++ [r])
                            (set_aguardando None me))]> (processos st);
              recursos := <[r := set_dono (Some p) rc]> (recursos st);
              timers := timers st ++ [(p, r)];
              log := log st ++ [msg_pegou me rc] |}, Pegou)
      end
  | _, _ => (st, Bloqueado)
  end.

(** [recurso.condicao.notify_all()]: every thread asleep on the condition
    is made runnable. *)
Definition notify_all (r : nat) (waiters : list nat) (ps : list Processo)
    : list Processo :=
  foldl (λ ps w, alter (set_pc (Acordado r)) w ps) ps waiters.

Definition liberar_recurso_agendado (st : Estado) (p r : nat) : Estado :=
  match processos st !! p, recursos st !! r with
  | Some me, Some rc =>
      if bool_decide (r ∈ recursos_posse me) then
        {| processos :=
             notify_all r (condicao rc)
               (<[p := set_posse (py_remove r (recursos_posse me)) me]> (processos st));
           recursos := <[r := set_condicao [] (set_dono None rc)]> (recursos st);
           timers := timers st;
           log := log st ++ [msg_liberou me rc] |}
      else st
  | _, _ => st
  end.

(** The [i]-th armed timer fires. *)
Definition disparar_timer (st : Estado) (i : nat) : Estado :=
  match timers st !! i with
  | Some (p, r) =>
      liberar_recurso_agendado
        {| processos := processos st; recursos := recursos st;
           timers := delete i (timers st); log := log st |} p r
  | None => st
  end.

(** ** The interleaving of the threads *)

Inductive passo : Estado → Estado → Prop :=
  | passo_tick st p k me :
      processos st !! p = Some me → pc me = Ocioso →
      started me = true → running me = true →
      passo st (run_tick st p k)
  | passo_solicitar st p r me :
      processos st !! p = Some me → pc me = Solicitando r →
      passo st (solicitar_recurso st p r).1
  | passo_acordar st p r me :
      processos st !! p = Some me → pc me = Acordado r →
      passo st (solicitar_recurso st p r).1
  | passo_timer st i :
      i < length (timers st) →
      passo st (disparar_timer st i).

(** The store right after [App.start_simulation]: nothing owned, nobody
    waiting, no timer armed. *)
Definition estado_inicial (st : Estado) : Prop :=
  Forall (λ me, recursos_posse me = [] ∧ recurso_aguardando me = None
                ∧ pc me = Ocioso) (processos st)
  ∧ Forall (λ rc, dono rc = None ∧ condicao rc = []) (recursos st)
  ∧ timers st = [].

Definition alcancavel (st : Estado) : Prop :=
  ∃ st0, estado_inicial st0 ∧ rtc passo st0 st.

(** Projections of the store. *)
Definition dono_de (st : Estado) (r : nat) : option nat :=
  from_option dono None (recursos st !! r).

Definition posse_de (st : Estado) (p : nat) : list nat :=
  from_option recursos_posse [] (processos st !! p).

Definition aguardando_de (st : Estado) (p : nat) : option nat :=
  from_option recurso_aguardando None (processos st !! p).

Definition pc_de (st : Estado) (p : nat) : Controle :=
  from_option pc Ocioso (processos st !! p).

Definition condicao_de (st : Estado) (r : nat) : list nat :=
  from_option condicao [] (recursos st !! r).

(** The resource a thread is in the middle of requesting. *)
Definition pedido (c : Controle) : option nat :=
  match c with
  | Ocioso => None
  | Solicitando r | Esperando r | Acordado r => Some r
  end.

(** The resource a thread has published in [recurso_aguardando]. *)
Definition publicado (c : Controle) : option nat :=
  match c with
  | Esperando r | Acordado r => Some r
  | Ocioso | Solicitando _ => None
  end.

(** What the locking discipline keeps true of the store. *)
Record consistente (st : Estado) : Prop := mkConsistente {
  cons_dono : ∀ r p, dono_de st r = Some p ↔ r ∈ posse_de st p;
  cons_nodup : ∀ p, NoDup (posse_de st p);
  cons_pedido : ∀ p r, pedido (pc_de st p) = Some r → r ∉ posse_de st p;
  cons_aguardando : ∀ p, aguardando_de st p = publicado (pc_de st p);
  cons_espera : ∀ p r, pc_de st p = Esperando r ↔ p ∈ condicao_de st r
}.

(** ** The configuration screen: [App] *)

Definition MAX_RECURSOS : nat := 10.
Definition MAX_PROCESSOS : nat := 10.

(** [Recurso(r_id, nome)] and [Processo(p_id, delta_ts, delta_tu, ...)] *)
Definition Recurso_init (rid : Z) (n : string) : Recurso :=
  {| r_id := rid; nome := n; dono := None; condicao := [] |}.

Definition Processo_init (pid : Z) (ts tu : Q) : Processo :=
  {| p_id := pid; delta_ts := ts; delta_tu := tu; recursos_posse := [];
     recurso_aguardando := None; running := true; started := false;
     pc := Ocioso |}.

(** [Thread.start()] in the loop [for p in self.processos: p.start()]:
    a thread that was started before raises [RuntimeError] and the loop
    ends there.  The flag tells whether the loop ran to its end. *)
Fixpoint start_all (ps : list Processo) : list Processo * bool :=
  match ps with
  | [] => ([], true)
  | p :: ps' =>
      if started p then (p :: ps', false)
      else let '(qs, ok) := start_all ps' in (set_started true p :: qs, ok)
  end.

Module App.

(** The dict [{'id': pid, 'ts': ts, 'tu': tu}]. *)
Record Config : Type := mkConfig { id : Z; ts : Q; tu : Q }.

Record SistemaOperacional : Type := mkSO {
  intervalo : Q;
  so_started : bool
}.

(** What the call shows to the user, or the exception that leaves it. *)
Inductive Aviso : Type :=
  | Nada
  | showwarning (titulo mensagem : string)
  | showerror (titulo mensagem : string)
  | RuntimeError.

Record t : Type := mk {
  recursos : list Recurso;
  processos : list Processo;
  so_thread : option SistemaOperacional;
  temp_process_configs : list Config
}.

Definition init : t :=
  {| recursos := []; processos := []; so_thread := None;
     temp_process_configs := [] |}.

(** [nome] is the text of the name entry. *)
Definition add_recurso (app : t) (nome : string) : t * Aviso :=
  if bool_decide (MAX_RECURSOS ≤ length (recursos app))%nat then
    (app, showwarning "Limite" "Máximo de 10 recursos atingido.")
  else if bool_decide (nome = "") then (app, Nada)
  else
    let rid := (Z.of_nat (length (recursos app)) + 1)%Z in
    ({| recursos := recursos app ++ [Recurso_init rid nome];
        processos := processos app; so_thread := so_thread app;
        temp_process_configs := temp_process_configs app |}, Nada).

(** [ets], [etu]: what [float(...)] makes of the two entries, [None]
    when it raises [ValueError]. *)
Definition add_processo_config (app : t) (ets etu : option Q) : t * Aviso :=
  if bool_decide (MAX_PROCESSOS ≤ length (temp_process_configs app))%nat then
    (app, showwarning "Limite" "Máximo de 10 processos atingido.")
  else
    match ets, etu with
    | Some ts, Some tu =>
        let pid := (Z.of_nat (length (temp_process_configs app)) + 1)%Z in
        ({| recursos := recursos app; processos := processos app;
            so_thread := so_thread app;
            temp_process_configs :=
              temp_process_configs app ++ [{| id := pid; ts := ts; tu := tu |}] |},
         Nada)
    | _, _ => (app, showerror "Erro" "Valores numéricos necessários.")
    end.

(** [edt]: what [float(...)] makes of the interval entry. *)
Definition start_simulation (app : t) (edt : option Q) : t * Aviso :=
  if bool_decide (recursos app = []) || bool_decide (temp_process_configs app = [])
  then (app, showerror "Erro" "Configure recursos e processos.")
  else
    match edt with
    | None => (app, Nada)
    | Some dt =>
        let ps := processos app
                  ++ map (λ c, Processo_init (id c) (ts c) (tu c))
                       (temp_process_configs app) in
        let '(ps', ok) := start_all ps in
        ({| recursos := recursos app; processos := ps';
            so_thread := Some {| intervalo := dt; so_started := ok |};
            temp_process_configs := temp_process_configs app |},
         if ok then Nada else RuntimeError)
    end.

(** The threads that are running: the started [Processo]s and the
    started [SistemaOperacional]. *)
Definition tarefas (app : t) : nat :=
  length (filter (λ p, started p = true) (processos app))
  + (if from_option so_started false (so_thread app) then 1 else 0).

Inductive Comando : Type :=
  | AddRecurso (nome : string)
  | AddProcesso (ets etu : option Q)
  | Start (edt : option Q).

Definition executar (app : t) (c : Comando) : t * Aviso :=
  match c with
  | AddRecurso nome => add_recurso app nome
  | AddProcesso ets etu => add_processo_config app ets etu
  | Start edt => start_simulation app edt
  end.

Definition apos (cs : list Comando) : t :=
  foldl (λ app c, (executar app c).1) init cs.

(** The store the threads start on. *)
Definition estado (app : t) : Estado :=
  mkEstado (processos app) (recursos app) [] ["Simulação Iniciada."].

End App.

(** ** The two scenarios of the detector *)

Definition proc (i : Z) (posse : list nat) (ag : option nat) (c : Controle)
    : Processo :=
  {| p_id := i; delta_ts := 0.5%Q; delta_tu := 50%Q; recursos_posse := posse;
     recurso_aguardando := ag; running := true; started := true; pc := c |}.

(** Two resources A and B, two processes P1 and P2, as the configuration
    screen builds them. *)
Definition app_AB : App.t :=
  App.apos [App.AddRecurso "A"; App.AddRecurso "B";
            App.AddProcesso (Some 0.5%Q) (Some 50%Q);
            App.AddProcesso (Some 0.5%Q) (Some 50%Q);
            App.Start (Some 1%Q)].

(** P1 owns A, P2 owns B, nobody waits. *)
Definition cenario_posse : Estado :=
  {| processos := [proc 1 [0] None Ocioso; proc 2 [1] None Ocioso];
     recursos := [mkRecurso 1 "A" (Some 0) []; mkRecurso 2 "B" (Some 1) []];
     timers := [(0, 0); (1, 1)];
     log := ["Simulação Iniciada."; "Processo 1 SOLICITOU A.";
             "Processo 1 PEGOU A."; "Processo 2 SOLICITOU B.";
             "Processo 2 PEGOU B."] |}.

(** P1 owns A and waits on nothing, P2 owns B and waits on A. *)
Definition cenario_bloqueio : Estado :=
  {| processos := [proc 1 [0] None Ocioso; proc 2 [1] (Some 0) (Esperando 0)];
     recursos := [mkRecurso 1 "A" (Some 0) [1]; mkRecurso 2 "B" (Some 1) []];
     timers := [(0, 0); (1, 1)];
     log := log cenario_posse
            ++ ["Processo 2 SOLICITOU A.";
                "Processo 2 BLOQUEADO por A (Dono: P1)."] |}.

(** P1 owns A and waits on B, P2 owns B and waits on A. *)
Definition cenario_deadlock : Estado :=
  {| processos := [proc 1 [0] (Some 1) (Esperando 1);
                   proc 2 [1] (Some 0) (Esperando 0)];
     recursos := [mkRecurso 1 "A" (Some 0) [1]; mkRecurso 2 "B" (Some 1) [0]];
     timers := [(0, 0); (1, 1)];
     log := log cenario_bloqueio
            ++ ["Processo 1 SOLICITOU B.";
                "Processo 1 BLOQUEADO por B (Dono: P2)."] |}.

(** Three processes on A and B. *)
Definition app_tres : App.t :=
  App.apos [App.AddRecurso "A"; App.AddRecurso "B";
            App.AddProcesso (Some 0.5%Q) (Some 50%Q);
            App.AddProcesso (Some 0.5%Q) (Some 50%Q);
            App.AddProcesso (Some 0.5%Q) (Some 50%Q);
            App.Start (Some 1%Q)].

(** P1 owns A and B; P2 and P3 both sleep waiting for A. *)
Definition cenario_dois_dormem : Estado :=
  {| processos := [proc 1 [0; 1] None Ocioso;
                   proc 2 [] (Some 0) (Esperando 0);
                   proc 3 [] (Some 0) (Esperando 0)];
     recursos := [mkRecurso 1 "A" (Some 0) [1; 2]; mkRecurso 2 "B" (Some 0) []];
     timers := [(0, 0); (0, 1)];
     log := ["Simulação Iniciada."; "Processo 1 SOLICITOU A.";
             "Processo 1 PEGOU A."; "Processo 1 SOLICITOU B.";
             "Processo 1 PEGOU B."; "Processo 2 SOLICITOU A.";
             "Processo 2 BLOQUEADO por A (Dono: P1).";
             "Processo 3 SOLICITOU A.";
             "Processo 3 BLOQUEADO por A (Dono: P1)."] |}.

(** * Vocabulary of the statements *)

(** ** Elementary circuits of a graph *)

Definition aresta (G : nx.DiGraph) (u v : string) : Prop := (u, v) ∈ nx.edges G.

(** Consecutive nodes of [l] are joined by edges. *)
Fixpoint caminho (G : nx.DiGraph) (l : list string) : Prop :=
  match l with
  | [] => True
  | u :: l' =>
      match l' with
      | [] => True
      | v :: _ => aresta G u v ∧ caminho G l'
      end
  end.

(** An elementary circuit, written as the list of its nodes: no node
    twice, edges along the list and from its last node back to its
    first. *)
Definition circuito (G : nx.DiGraph) (c : list string) : Prop :=
  match c with
  | [] => False
  | s :: _ => NoDup c ∧ caminho G (c ++ [s])
  end.

(** The same circuit started at another node. *)
Definition rotacao (c c' : list string) : Prop :=
  ∃ c1 c2, c = c1 ++ c2 ∧ c' = c2 ++ c1.

(** Every edge joins two nodes of the graph. *)
Definition bem_formado (G : nx.DiGraph) : Prop :=
  ∀ u v, aresta G u v → u ∈ (nx.nodes G).*1 ∧ v ∈ (nx.nodes G).*1.

(** The graphs [add_node] and [add_edge] build: no node twice, no edge
    twice, every edge between nodes. *)
Record grafo_ok (G : nx.DiGraph) : Prop := mkGrafoOk {
  ok_nodes : NoDup (nx.nodes G).*1;
  ok_edges : NoDup (nx.edges G);
  ok_ends : bem_formado G
}.

(** The edge a resource contributes (resource to owner) and the edge a
    process contributes (process to awaited resource). *)
Definition aresta_dono (ps : list Processo) (r : Recurso) : option (string * string) :=
  d ← dono r; q ← ps !! d; Some (no_recurso r, no_processo q).

Definition aresta_espera (rs : list Recurso) (p : Processo) : option (string * string) :=
  a ← recurso_aguardando p; r ← rs !! a; Some (no_processo p, no_recurso r).

Definition add_aresta (G : nx.DiGraph) (e : option (string * string)) : nx.DiGraph :=
  match e with
  | Some (u, v) => nx.add_edge u v G
  | None => G
  end.

(** ** Stores with the same allocation *)

(** What the detector reads of a process and of a resource. *)
Definition chave_p (p : Processo) : Z * option nat := (p_id p, recurso_aguardando p).
Definition chave_r (r : Recurso) : Z * option nat := (r_id r, dono r).

(** Two stores with the same allocation: the same identifiers in the same
    order, the same [dono] fields and the same [recurso_aguardando]
    pointers; names, held lists, timers, log and thread positions may
    differ. *)
Definition mesma_alocacao (st1 st2 : Estado) : Prop :=
  chave_p <$> processos st1 = chave_p <$> processos st2
  ∧ chave_r <$> recursos st1 = chave_r <$> recursos st2.

(** The graph of the detector, built from those keys alone. *)
Definition construir_grafo_chaves (kp kr : list (Z * option nat)) : nx.DiGraph :=
  let G := foldl (λ G k, nx.add_node ("P" +:+ pretty k.1) "processo" G) nx.vazio kp in
  let G := foldl (λ G k, nx.add_node ("R" +:+ pretty k.1) "recurso" G) G kr in
  let G := foldl (λ G k,
             match k.2 with
             | Some d =>
                 match kp !! d with
                 | Some q => nx.add_edge ("R" +:+ pretty k.1) ("P" +:+ pretty q.1) G
                 | None => G
                 end
             | None => G
             end) G kr in
  foldl (λ G k,
    match k.2 with
    | Some a =>
        match kr !! a with
        | Some r => nx.add_edge ("P" +:+ pretty k.1) ("R" +:+ pretty r.1) G
        | None => G
        end
    | None => G
    end) G kp.

(** The same allocation as [cenario_deadlock], seen later: other names,
    another log, one timer already gone. *)
Definition cenario_deadlock_depois : Estado :=
  {| processos := [proc 1 [0] (Some 1) (Acordado 1);
                   proc 2 [1] (Some 0) (Esperando 0)];
     recursos := [mkRecurso 1 "impressora" (Some 0) [1];
                  mkRecurso 2 "scanner" (Some 1) []];
     timers := [(1, 1)];
     log := [] |}.

(** ** Configurations *)

(** Ten resources and ten processes entered, nothing started yet. *)
Definition comandos_cheios : list App.Comando :=
  map (λ i, App.AddRecurso ("R" +:+ pretty i)) (seq 1 10)
  ++ replicate 10 (App.AddProcesso (Some 0.5%Q) (Some 50%Q)).

(** A configuration the specification wants refused: no resource, no
    process, or a process whose request interval or hold duration is not
    positive. *)
Definition config_invalida (app : App.t) : Prop :=
  App.recursos app = [] ∨ App.temp_process_configs app = []
  ∨ ∃ c, c ∈ App.temp_process_configs app
         ∧ ((App.ts c <= 0)%Q ∨ (App.tu c <= 0)%Q).

(** The start is refused: an error is shown and no thread is started. *)
Definition recusada (app : App.t) (edt : option Q) : Prop :=
  (∃ titulo mensagem,
      (App.start_simulation app edt).2 = App.showerror titulo mensagem)
  ∧ App.tarefas (App.start_simulation app edt).1 = App.tarefas app.

(** One resource, one process with request interval 0 and hold
    duration -1. *)
Definition app_nao_positivo : App.t :=
  App.apos [App.AddRecurso "A"; App.AddProcesso (Some 0%Q) (Some (-1)%Q)].

Ltac proj_unfold :=
  unfold dono_de, posse_de, pc_de, aguardando_de, condicao_de in *.

(** ** Invariants of the timers and of the sleeping threads *)

(** Every held resource has its release timer armed, once, and no timer
    is left over. *)
Definition timers_ok (st : Estado) : Prop :=
  NoDup (timers st)
  ∧ ∀ p r, (p, r) ∈ timers st ↔ r ∈ posse_de st p.

(** Nobody sleeps on the condition of a free resource. *)
Definition espera_ok (st : Estado) : Prop :=
  ∀ p r, p ∈ condicao_de st r → is_Some (dono_de st r).



(** ** [App.render_graph_and_status]: what is computed from the snapshot *)

(** [any(node in c for c in cycles)] *)
Definition em_algum_ciclo (cs : list (list string)) (node : string) : bool :=
  existsb (λ c, bool_decide (node ∈ c)) cs.

(** The colour of every node, in the order of [G.nodes()]. *)
Definition color_map (data : Snapshot) : list string :=
  map (λ na,
    if bool_decide (na.1 ∈ in_deadlock data) || em_algum_ciclo (cycles data) na.1
    then "red"
    else if bool_decide (na.2 = Some "processo") then "skyblue"
    else "lightgreen") (nx.nodes (graph data)).

(** The two variables of the status loop that depend on the state of the
    process: [state] and [deadlock_mark]. *)
Definition state (p : Processo) : string :=
  match recurso_aguardando p with
  | Some _ => "BLOQUEADO"
  | None => "RODANDO"
  end.

Definition deadlock_mark (data : Snapshot) (p : Processo) : string :=
  if bool_decide (no_processo p ∈ in_deadlock data) then " [DEADLOCK]" else "".

(** Text and colour the banner [lbl_deadlock] is configured with. *)
Definition lbl_deadlock (data : Snapshot) : string * string :=
  match cycles data with
  | [] => ("SISTEMA NORMAL", "green")
  | _ :: _ =>
      ("DEADLOCK DETECTADO!" +:+ String (Ascii.ascii_of_nat 10) ""
         +:+ "Processos Parados: " +:+ String.concat ", " (in_deadlock data),
       "red")
  end.

(** * Properties *)

(** ** Folds *)

Lemma foldl_ext_fun {A B : Type} (f g : A → B → A) (l : list B) (a : A) :
  (∀ a b, f a b = g a b) → foldl f a l = foldl g a l.
Proof.
  intros Hfg. revert a. induction l as [|b l IH]; intros a; simpl; [done|].
  by rewrite Hfg, IH.
Qed.

Lemma foldl_preserva {A B : Type} (P : A → Prop) (f : A → B → A) (l : list B) (a : A) :
  (∀ a b, P a → P (f a b)) → P a → P (foldl f a l).
Proof.
  intros Hf. revert a. induction l as [|b l IH]; intros a Ha; simpl; [done|].
  by apply IH, Hf.
Qed.

(** ** Elementary circuits and their enumeration *)

Lemma elem_of_successors (G : nx.DiGraph) (u v : string) :
  v ∈ nx.successors G u ↔ aresta G u v.
Proof.
  unfold nx.successors, aresta. rewrite list_elem_of_fmap. split.
  - intros ([u' v'] & -> & [Hu Hin]%list_elem_of_filter). simpl in *. by subst.
  - intros Hin. exists (u, v). split; [done|]. by apply list_elem_of_filter.
Qed.

Lemma elem_of_flat_map {A B : Type} (f : A → list B) (l : list A) (y : B) :
  y ∈ flat_map f l ↔ ∃ x, x ∈ l ∧ y ∈ f x.
Proof.
  rewrite list_elem_of_In, in_flat_map.
  split; intros (x & Hx & Hy); exists x; by rewrite ?list_elem_of_In in *.
Qed.

Lemma caminho_split (G : nx.DiGraph) (l1 l2 : list string) (x : string) :
  caminho G (l1 ++ x :: l2) ↔ caminho G (l1 ++ [x]) ∧ caminho G (x :: l2).
Proof.
  induction l1 as [|a l1 IH]; simpl.
  - split; [by intros ?|by intros [_ ?]].
  - destruct l1 as [|b l1]; simpl in *.
    + destruct l2; simpl; naive_solver.
    + rewrite IH. naive_solver.
Qed.

Lemma caminho_snoc (G : nx.DiGraph) (l : list string) (u v : string) :
  last l = Some u → caminho G l → aresta G u v → caminho G (l ++ [v]).
Proof.
  intros (l' & ->)%last_Some Hl Huv. rewrite <- app_assoc. simpl.
  apply caminho_split. split; [done|]. simpl. done.
Qed.

Lemma caminho_last_edge (G : nx.DiGraph) (l l2 : list string) (u v : string) :
  last l = Some u → caminho G (l ++ v :: l2) → aresta G u v.
Proof.
  intros (l' & ->)%last_Some. rewrite <- app_assoc. simpl.
  intros [_ H]%caminho_split. simpl in H. by destruct H.
Qed.

Lemma busca_sound (G : nx.DiGraph) (s : string) (fora : list string) :
  ∀ fuel path u c,
    head path = Some s → last path = Some u → NoDup path → caminho G path →
    c ∈ nx.busca fuel G s fora path u →
    circuito G c ∧ head c = Some s ∧ (∀ x, x ∈ c → x ∈ path ∨ x ∉ fora).
Proof.
  induction fuel as [|fuel IH]; intros path u c Hh Hl Hnd Hp Hc; simpl in Hc.
  - by apply elem_of_nil in Hc.
  - apply elem_of_flat_map in Hc as (v & Hv%elem_of_successors & Hc).
    destruct (decide (v = s)) as [-> |Hvs].
    + apply list_elem_of_singleton in Hc as ->.
      split; [|by auto]. destruct path as [|s' path]; simplify_eq/=.
      split; [done|]. by apply (caminho_snoc G (s :: path) u s).
    + destruct (decide (v ∈ fora ∨ v ∈ path)) as [|Hn]; [by apply elem_of_nil in Hc|].
      apply IH in Hc as (Hc1 & Hc2 & Hc3).
      * split; [done|]. split; [done|]. intros x Hx.
        destruct (Hc3 x Hx) as [[?| ->%list_elem_of_singleton]%elem_of_app|?]; auto.
      * by destruct path.
      * apply last_snoc.
      * apply NoDup_app. split; [done|]. split; [|apply NoDup_singleton].
        intros x Hx ->%list_elem_of_singleton. auto.
      * by apply (caminho_snoc G path u v).
Qed.

Lemma busca_complete (G : nx.DiGraph) (s : string) (fora : list string) :
  ∀ rest path fuel u,
    head path = Some s → last path = Some u →
    NoDup (path ++ rest) → caminho G (path ++ rest ++ [s]) →
    (∀ x, x ∈ rest → x ∉ fora) → length rest < fuel →
    path ++ rest ∈ nx.busca fuel G s fora path u.
Proof.
  induction rest as [|v rest IH]; intros path fuel u Hh Hl Hnd Hp Hf Hfuel;
    (destruct fuel as [|fuel]; [simpl in Hfuel; lia|]); simpl.
  - rewrite app_nil_r. apply elem_of_flat_map. exists s. split.
    + apply elem_of_successors. by apply (caminho_last_edge G path [] u s).
    + rewrite decide_True by done. by left.
  - apply elem_of_flat_map. exists v. split.
    + apply elem_of_successors. by apply (caminho_last_edge G path (rest ++ [s]) u v).
    + apply NoDup_app in Hnd as Hnd'. destruct Hnd' as (_ & Hdisj & _).
      assert (Hvp : v ∉ path) by (intros Hv; apply (Hdisj v Hv); by left).
      assert (Hs : s ∈ path) by (destruct path; simplify_eq/=; by left).
      rewrite decide_False by (by intros ->).
      rewrite decide_False.
      2:{ intros [Hv|Hv]; [|done]. apply (Hf v); [by left|done]. }
      replace (path ++ v :: rest) with ((path ++ [v]) ++ rest)
        by (by rewrite <- app_assoc).
      apply IH.
      * by destruct path.
      * apply last_snoc.
      * by rewrite <- app_assoc.
      * by rewrite <- app_assoc.
      * intros x Hx. apply Hf. by right.
      * simpl in Hfuel. lia.
Qed.

Lemma circuito_rotacao (G : nx.DiGraph) (c1 c2 : list string) (s : string) :
  circuito G (c1 ++ s :: c2) → circuito G (s :: c2 ++ c1).
Proof.
  destruct c1 as [|h c1]; [by rewrite app_nil_r|].
  intros [Hnd Hp]. split.
  - by rewrite (Permutation_app_comm (s :: c2) (h :: c1)).
  - change (caminho G (((h :: c1) ++ s :: c2) ++ [h])) in Hp.
    rewrite <- app_assoc in Hp. simpl in Hp.
    apply (caminho_split G (h :: c1)) in Hp as [Hp1 Hp2].
    change (caminho G (((s :: c2) ++ h :: c1) ++ [s])).
    rewrite <- app_assoc. apply caminho_split. split; [done|]. exact Hp1.
Qed.

Lemma ciclos_desde_sound (G : nx.DiGraph) :
  ∀ ns fora c,
    NoDup (fora ++ ns) →
    c ∈ nx.ciclos_desde G fora ns →
    circuito G c ∧ (∃ s, head c = Some s ∧ s ∈ ns)
    ∧ (∀ x, x ∈ c → x ∉ fora).
Proof.
  induction ns as [|s ns IH]; intros fora c Hnd Hc; simpl in Hc.
  - by apply elem_of_nil in Hc.
  - apply elem_of_app in Hc as [Hc|Hc].
    + apply busca_sound in Hc as (Hc1 & Hc2 & Hc3);
        [|done|done|apply NoDup_singleton|done].
      split; [done|]. split; [exists s; split; [done|by left]|].
      intros x Hx. destruct (Hc3 x Hx) as [->%list_elem_of_singleton|]; [|done].
      apply NoDup_app in Hnd as (_ & Hd & _). intros Hs. apply (Hd s Hs). by left.
    + apply IH in Hc as (Hc1 & (s' & Hh & Hs') & Hc3).
      * split; [done|]. split; [exists s'; split; [done|by right]|].
        intros x Hx Hf. apply (Hc3 x Hx). apply elem_of_app. by left.
      * by rewrite <- app_assoc.
Qed.

Lemma ciclos_desde_complete (G : nx.DiGraph) :
  ∀ ns fora c,
    circuito G c → length c ≤ length (nx.nodes G) →
    (∀ x, x ∈ c → x ∉ fora) → (∀ x, x ∈ c → x ∈ ns) →
    ∃ c', rotacao c c' ∧ c' ∈ nx.ciclos_desde G fora ns.
Proof.
  induction ns as [|s ns IH]; intros fora c Hc Hlen Hf Hn.
  - destruct c as [|x c]; [done|]. exfalso. apply (elem_of_nil x), Hn. by left.
  - destruct (decide (s ∈ c)) as [Hs|Hs].
    + apply list_elem_of_split in Hs as (c1 & c2 & ->).
      exists (s :: c2 ++ c1). split; [by exists c1, (s :: c2)|].
      apply circuito_rotacao in Hc as Hc'. destruct Hc' as [Hnd Hp].
      simpl. apply elem_of_app. left.
      apply (busca_complete G s fora (c2 ++ c1) [s]); try done.
      * intros x Hx. apply Hf. rewrite elem_of_app, elem_of_cons.
        apply elem_of_app in Hx. naive_solver.
      * rewrite length_app in *. simpl in *. lia.
    + destruct (IH (fora ++ [s]) c Hc Hlen) as (c' & Hr & Hc').
      * intros x Hx Hx'. apply elem_of_app in Hx' as [?|Hx'%list_elem_of_singleton];
          [by apply (Hf x)|by subst].
      * intros x Hx. destruct (proj1 (elem_of_cons _ _ _) (Hn x Hx)) as [-> |?]; done.
      * exists c'. split; [done|]. simpl. apply elem_of_app. by right.
Qed.

(** *** Every circuit is reported once *)

Lemma NoDup_flat_map {A B : Type} (f : A → list B) (l : list A) :
  NoDup l → (∀ x, x ∈ l → NoDup (f x)) →
  (∀ x y z, x ∈ l → y ∈ l → z ∈ f x → z ∈ f y → x = y) →
  NoDup (flat_map f l).
Proof.
  induction 1 as [|a l Ha Hl IH]; intros Hf Hd; simpl; [constructor|].
  apply NoDup_app. split; [apply Hf; by left|]. split.
  - intros z Hz (y & Hy & Hzy)%elem_of_flat_map.
    assert (a = y) as -> by (apply (Hd a y z); [by left|by right|done|done]).
    done.
  - apply IH.
    + intros x Hx. apply Hf. by right.
    + intros x y z Hx Hy. apply Hd; by right.
Qed.

Lemma successors_NoDup (G : nx.DiGraph) (u : string) :
  NoDup (nx.edges G) → NoDup (nx.successors G u).
Proof.
  intros Hnd. unfold nx.successors. apply NoDup_fmap_2_strong.
  - intros [a b] [a' b'] [Ha _]%list_elem_of_filter [Ha' _]%list_elem_of_filter.
    simpl in *. congruence.
  - by apply NoDup_filter.
Qed.

Lemma busca_prefix (G : nx.DiGraph) (s : string) (fora : list string) :
  ∀ fuel path u c, c ∈ nx.busca fuel G s fora path u → path `prefix_of` c.
Proof.
  induction fuel as [|fuel IH]; intros path u c Hc; simpl in Hc.
  - by apply elem_of_nil in Hc.
  - apply elem_of_flat_map in Hc as (v & _ & Hc).
    destruct (decide (v = s)); [by apply list_elem_of_singleton in Hc as ->|].
    destruct (decide (v ∈ fora ∨ v ∈ path)); [by apply elem_of_nil in Hc|].
    apply IH in Hc. etrans; [|exact Hc]. by apply prefix_app_r.
Qed.

Lemma busca_NoDup (G : nx.DiGraph) (s : string) (fora : list string) :
  NoDup (nx.edges G) →
  ∀ fuel path u, NoDup (nx.busca fuel G s fora path u).
Proof.
  intros Hnd. induction fuel as [|fuel IH]; intros path u; simpl; [constructor|].
  assert (Hf : ∀ v z,
    z ∈ (if decide (v = s) then [path]
         else if decide (v ∈ fora ∨ v ∈ path) then []
         else nx.busca fuel G s fora (path ++ [v]) v) →
    (v = s ∧ z = path) ∨ (v ≠ s ∧ (path ++ [v]) `prefix_of` z)).
  { intros v z Hz. destruct (decide (v = s)).
    - left. by apply list_elem_of_singleton in Hz.
    - right. split; [done|].
      destruct (decide (v ∈ fora ∨ v ∈ path)); [by apply elem_of_nil in Hz|].
      by apply busca_prefix in Hz. }
  apply NoDup_flat_map.
  - by apply successors_NoDup.
  - intros v _. destruct (decide (v = s)); [apply NoDup_singleton|].
    destruct (decide (v ∈ fora ∨ v ∈ path)); [constructor|apply IH].
  - intros v v' z _ _ Hz Hz'.
    apply Hf in Hz as [[-> ->]|[Hv [k Hk]]], Hz' as [[-> Hp]|[Hv' [k' Hk']]];
      try done.
    + apply (f_equal length) in Hk'. rewrite !length_app in Hk'. simpl in Hk'. lia.
    + subst z. apply (f_equal length) in Hp. rewrite !length_app in Hp.
      simpl in Hp. lia.
    + subst z. rewrite <- !app_assoc in Hk'. apply app_inv_head in Hk'.
      by simplify_eq/=.
Qed.

Lemma rotacao_mesma_raiz (c c' : list string) (s : string) :
  rotacao c c' → NoDup c → head c = Some s → head c' = Some s → c = c'.
Proof.
  intros (c1 & c2 & -> & ->) Hnd Hh Hh'.
  destruct c1 as [|a c1]; [by rewrite app_nil_r|].
  destruct c2 as [|b c2]; [by rewrite app_nil_r|].
  simplify_eq/=. apply NoDup_cons in Hnd as [Hs _].
  exfalso. apply Hs. apply elem_of_app. right. by left.
Qed.

Lemma rotacao_elem (c c' : list string) (x : string) :
  rotacao c c' → x ∈ c → x ∈ c'.
Proof. intros (c1 & c2 & -> & ->). rewrite !elem_of_app. tauto. Qed.

Lemma rotacao_sym (c c' : list string) : rotacao c c' → rotacao c' c.
Proof. intros (c1 & c2 & -> & ->). by exists c2, c1. Qed.

Lemma ciclos_desde_unique (G : nx.DiGraph) :
  NoDup (nx.edges G) →
  ∀ ns fora,
    NoDup (fora ++ ns) →
    NoDup (nx.ciclos_desde G fora ns)
    ∧ (∀ c c', c ∈ nx.ciclos_desde G fora ns → c' ∈ nx.ciclos_desde G fora ns →
               rotacao c c' → c = c').
Proof.
  intros He. induction ns as [|s ns IH]; intros fora Hnd; simpl.
  - split; [constructor|]. by intros c c' ?%elem_of_nil.
  - assert (Hnd' : NoDup ((fora ++ [s]) ++ ns)) by (by rewrite <- app_assoc).
    destruct (IH _ Hnd') as [IH1 IH2].
    assert (Hraiz : ∀ c, c ∈ nx.busca (length (nx.nodes G)) G s fora [s] s →
                         NoDup c ∧ head c = Some s).
    { intros c Hc. apply busca_sound in Hc as (Hc1 & Hc2 & _);
        [|done|done|apply NoDup_singleton|done].
      split; [|done]. destruct c; [done|]. by destruct Hc1. }
    assert (Hresto : ∀ c, c ∈ nx.ciclos_desde G (fora ++ [s]) ns → s ∉ c).
    { intros c Hc Hs. apply ciclos_desde_sound in Hc as (_ & _ & Hc); [|done].
      apply (Hc s Hs). apply elem_of_app. right. by left. }
    assert (Hdisj : ∀ c c', c ∈ nx.busca (length (nx.nodes G)) G s fora [s] s →
                            c' ∈ nx.ciclos_desde G (fora ++ [s]) ns →
                            ¬ rotacao c c').
    { intros c c' Hc Hc' Hrot. apply (Hresto c' Hc').
      apply (rotacao_elem c c' s Hrot). apply Hraiz in Hc as [_ Hh].
      destruct c; simplify_eq/=. by left. }
    split.
    + apply NoDup_app. split; [by apply busca_NoDup|]. split; [|done].
      intros c Hc Hc'. apply (Hdisj c c Hc Hc'). by exists [], c; rewrite app_nil_r.
    + intros c c' [Hc|Hc]%elem_of_app [Hc'|Hc']%elem_of_app Hrot.
      * destruct (Hraiz c Hc) as [? ?], (Hraiz c' Hc') as [? ?].
        by apply (rotacao_mesma_raiz c c' s).
      * by destruct (Hdisj c c' Hc Hc').
      * by destruct (Hdisj c' c Hc' Hc (rotacao_sym _ _ Hrot)).
      * by apply IH2.
Qed.

(** *** The graphs the detector builds *)

Lemma has_node_spec (G : nx.DiGraph) (n : string) :
  nx.has_node G n = true ↔ n ∈ (nx.nodes G).*1.
Proof. unfold nx.has_node. by rewrite bool_decide_eq_true. Qed.

Lemma add_node_nomes (n t : string) (G : nx.DiGraph) :
  (nx.nodes (nx.add_node n t G)).*1
  = if nx.has_node G n then (nx.nodes G).*1 else (nx.nodes G).*1 ++ [n].
Proof.
  unfold nx.add_node. destruct (nx.has_node G n); simpl.
  - induction (nx.nodes G) as [|[m a] l IH]; [done|].
    cbn [map fmap list_fmap] in *. rewrite IH. f_equal.
    by case_decide; simplify_eq/=.
  - by rewrite fmap_app.
Qed.

Lemma add_node_edges (n t : string) (G : nx.DiGraph) :
  nx.edges (nx.add_node n t G) = nx.edges G.
Proof. unfold nx.add_node. by destruct (nx.has_node G n). Qed.

Lemma touch_node_nomes (n : string) (G : nx.DiGraph) :
  (nx.nodes (nx.touch_node n G)).*1
  = if nx.has_node G n then (nx.nodes G).*1 else (nx.nodes G).*1 ++ [n].
Proof.
  unfold nx.touch_node. destruct (nx.has_node G n); simpl; [done|].
  by rewrite fmap_app.
Qed.

Lemma touch_node_edges (n : string) (G : nx.DiGraph) :
  nx.edges (nx.touch_node n G) = nx.edges G.
Proof. unfold nx.touch_node. by destruct (nx.has_node G n). Qed.

Lemma elem_of_nomes_snoc (G : nx.DiGraph) (n x : string) :
  x ∈ (if nx.has_node G n then (nx.nodes G).*1 else (nx.nodes G).*1 ++ [n])
  ↔ x ∈ (nx.nodes G).*1 ∨ x = n.
Proof.
  destruct (nx.has_node G n) eqn:E.
  - apply has_node_spec in E. naive_solver.
  - by rewrite elem_of_app, list_elem_of_singleton.
Qed.

Lemma NoDup_nomes_snoc (G : nx.DiGraph) (n : string) :
  NoDup (nx.nodes G).*1 →
  NoDup (if nx.has_node G n then (nx.nodes G).*1 else (nx.nodes G).*1 ++ [n]).
Proof.
  intros Hnd. destruct (nx.has_node G n) eqn:E; [done|].
  apply NoDup_app. split; [done|]. split; [|apply NoDup_singleton].
  intros x Hx ->%list_elem_of_singleton.
  apply has_node_spec in Hx. congruence.
Qed.

Lemma add_node_ok (n t : string) (G : nx.DiGraph) :
  grafo_ok G → grafo_ok (nx.add_node n t G).
Proof.
  intros [Hn He Hb]. split.
  - rewrite add_node_nomes. by apply NoDup_nomes_snoc.
  - by rewrite add_node_edges.
  - intros u v. unfold aresta. rewrite add_node_edges, add_node_nomes.
    rewrite !elem_of_nomes_snoc. intros Huv. destruct (Hb u v Huv). auto.
Qed.

Lemma touch_node_ok (n : string) (G : nx.DiGraph) :
  grafo_ok G → grafo_ok (nx.touch_node n G).
Proof.
  intros [Hn He Hb]. split.
  - rewrite touch_node_nomes. by apply NoDup_nomes_snoc.
  - by rewrite touch_node_edges.
  - intros u v. unfold aresta. rewrite touch_node_edges, touch_node_nomes.
    rewrite !elem_of_nomes_snoc. intros Huv. destruct (Hb u v Huv). auto.
Qed.

Lemma add_edge_aresta (u v a b : string) (G : nx.DiGraph) :
  aresta (nx.add_edge u v G) a b ↔ aresta G a b ∨ (a = u ∧ b = v).
Proof.
  unfold aresta, nx.add_edge. simpl. rewrite !touch_node_edges.
  case_bool_decide as Hin; simpl; rewrite ?touch_node_edges.
  - split; [by left|]. intros [?|[-> ->]]; done.
  - rewrite elem_of_app, list_elem_of_singleton. naive_solver.
Qed.

Lemma add_edge_nomes (u v x : string) (G : nx.DiGraph) :
  x ∈ (nx.nodes (nx.add_edge u v G)).*1 ↔ x ∈ (nx.nodes G).*1 ∨ x = u ∨ x = v.
Proof.
  unfold nx.add_edge. simpl.
  assert (x ∈ (nx.nodes (nx.touch_node v (nx.touch_node u G))).*1
          ↔ x ∈ (nx.nodes G).*1 ∨ x = u ∨ x = v) as H.
  { rewrite touch_node_nomes, elem_of_nomes_snoc.
    rewrite touch_node_nomes, elem_of_nomes_snoc. tauto. }
  by case_bool_decide.
Qed.

Lemma add_edge_ok (u v : string) (G : nx.DiGraph) :
  grafo_ok G → grafo_ok (nx.add_edge u v G).
Proof.
  intros HG. split.
  - apply (touch_node_ok u), (touch_node_ok v) in HG. destruct HG as [Hn _ _].
    unfold nx.add_edge. simpl. by case_bool_decide.
  - destruct HG as [_ He _]. unfold nx.add_edge. simpl. rewrite !touch_node_edges.
    case_bool_decide as Hin; simpl; rewrite ?touch_node_edges; [done|].
    apply NoDup_app. split; [done|]. split; [|apply NoDup_singleton].
    by intros x Hx ->%list_elem_of_singleton.
  - intros a b [Hab|[-> ->]]%add_edge_aresta; rewrite !add_edge_nomes.
    + destruct (ok_ends G HG a b Hab). auto.
    + auto.
Qed.

Lemma vazio_ok : grafo_ok nx.vazio.
Proof.
  split; simpl; [constructor|constructor|].
  intros u v Huv. by apply elem_of_nil in Huv.
Qed.

Lemma construir_grafo_ok (ps : list Processo) (rs : list Recurso) :
  grafo_ok (construir_grafo ps rs).
Proof.
  unfold construir_grafo, grafo_arestas_espera, grafo_arestas_dono,
    grafo_nos_recursos, grafo_nos_processos.
  apply foldl_preserva.
  { intros G p HG. destruct (recurso_aguardando p) as [a|]; [|done].
    destruct (rs !! a); [by apply add_edge_ok|done]. }
  apply foldl_preserva.
  { intros G r HG. destruct (dono r) as [d|]; [|done].
    destruct (ps !! d); [by apply add_edge_ok|done]. }
  apply foldl_preserva; [intros; by apply add_node_ok|].
  apply foldl_preserva; [intros; by apply add_node_ok|].
  apply vazio_ok.
Qed.

(** *** [simple_cycles] lists the elementary circuits, each one once *)

Lemma circuito_nos (G : nx.DiGraph) (c : list string) (x : string) :
  bem_formado G → circuito G c → x ∈ c → x ∈ (nx.nodes G).*1.
Proof.
  intros Hb Hc Hx. destruct c as [|s c]; [done|]. destruct Hc as [_ Hp].
  apply list_elem_of_split in Hx as (c1 & c2 & Heq). rewrite Heq in Hp.
  rewrite <- app_assoc in Hp. simpl in Hp.
  apply caminho_split in Hp as [_ Hp].
  destruct (c2 ++ [s]) as [|y l] eqn:E; [by destruct c2|].
  simpl in Hp. destruct Hp as [Hxy _]. by destruct (Hb x y Hxy).
Qed.

Theorem simple_cycles_spec (G : nx.DiGraph) :
  grafo_ok G →
  (∀ c, c ∈ nx.simple_cycles G → circuito G c)
  ∧ (∀ c, circuito G c → ∃ c', rotacao c c' ∧ c' ∈ nx.simple_cycles G)
  ∧ NoDup (nx.simple_cycles G)
  ∧ (∀ c c', c ∈ nx.simple_cycles G → c' ∈ nx.simple_cycles G →
             rotacao c c' → c = c').
Proof.
  intros [Hn He Hb]. unfold nx.simple_cycles.
  split; [|split].
  - intros c Hc. by apply ciclos_desde_sound in Hc as [? _].
  - intros c Hc. apply ciclos_desde_complete; try done.
    + rewrite <- (length_fmap fst). apply submseteq_length, NoDup_submseteq.
      * destruct c; [done|]. by destruct Hc.
      * intros x Hx. by apply (circuito_nos G c x).
    + intros x _. apply not_elem_of_nil.
    + intros x Hx. by apply (circuito_nos G c x).
  - by apply ciclos_desde_unique.
Qed.

(** *** The graph is the allocation graph of the store *)

Lemma foldl_add_node_edges {A : Type} (f : A → string) (t : string)
    (l : list A) (G : nx.DiGraph) :
  nx.edges (foldl (λ G x, nx.add_node (f x) t G) G l) = nx.edges G.
Proof.
  revert G. induction l as [|x l IH]; intros G; simpl; [done|].
  by rewrite IH, add_node_edges.
Qed.

Lemma foldl_add_node_nomes {A : Type} (f : A → string) (t : string)
    (l : list A) (G : nx.DiGraph) (n : string) :
  n ∈ (nx.nodes (foldl (λ G x, nx.add_node (f x) t G) G l)).*1
  ↔ n ∈ (nx.nodes G).*1 ∨ ∃ x, x ∈ l ∧ n = f x.
Proof.
  revert G. induction l as [|x l IH]; intros G; simpl.
  - split; [by left|]. intros [?|(x & Hx & _)]; [done|]. by apply elem_of_nil in Hx.
  - rewrite IH, add_node_nomes, elem_of_nomes_snoc. split.
    + intros [[?| ->]|(y & Hy & ->)]; [by left| |].
      * right. exists x. split; [by left|done].
      * right. exists y. split; [by right|done].
    + intros [?|(y & [-> |Hy]%elem_of_cons & ->)]; [by do 2 left|by left; right|].
      right. by exists y.
Qed.

Lemma foldl_add_aresta {A : Type} (g : A → option (string * string))
    (l : list A) (G : nx.DiGraph) (u v : string) :
  aresta (foldl (λ G x, add_aresta G (g x)) G l) u v
  ↔ aresta G u v ∨ ∃ x, x ∈ l ∧ g x = Some (u, v).
Proof.
  revert G. induction l as [|x l IH]; intros G; simpl.
  - split; [by left|]. intros [?|(x & Hx & _)]; [done|]. by apply elem_of_nil in Hx.
  - rewrite IH. split.
    + intros [Hx|(y & Hy & Hg)].
      * destruct (g x) as [[a b]|] eqn:E; simpl in Hx; [|by left].
        apply add_edge_aresta in Hx as [?|[-> ->]]; [by left|].
        right. exists x. split; [by left|done].
      * right. exists y. split; [by right|done].
    + intros [Huv|(y & [-> |Hy]%elem_of_cons & Hg)].
      * left. destruct (g x) as [[a b]|]; simpl; [|done].
        apply add_edge_aresta. by left.
      * left. rewrite Hg. simpl. apply add_edge_aresta. by right.
      * right. by exists y.
Qed.

Lemma foldl_add_aresta_nomes {A : Type} (g : A → option (string * string))
    (l : list A) (G : nx.DiGraph) (n : string) :
  (∀ x a b, x ∈ l → g x = Some (a, b) →
            a ∈ (nx.nodes G).*1 ∧ b ∈ (nx.nodes G).*1) →
  n ∈ (nx.nodes (foldl (λ G x, add_aresta G (g x)) G l)).*1
  ↔ n ∈ (nx.nodes G).*1.
Proof.
  revert G. induction l as [|x l IH]; intros G Hg; simpl; [done|].
  assert (Hx : ∀ m, m ∈ (nx.nodes (add_aresta G (g x))).*1 ↔ m ∈ (nx.nodes G).*1).
  { intros m. destruct (g x) as [[a b]|] eqn:E; simpl; [|done].
    rewrite add_edge_nomes. destruct (Hg x a b) as [Ha Hb]; [by left|done|].
    naive_solver. }
  rewrite IH, Hx; [done|]. intros y a b Hy E. rewrite !Hx.
  apply (Hg y); [by right|done].
Qed.

Lemma construir_grafo_add_aresta (ps : list Processo) (rs : list Recurso) :
  construir_grafo ps rs
  = foldl (λ G p, add_aresta G (aresta_espera rs p))
      (foldl (λ G r, add_aresta G (aresta_dono ps r))
         (grafo_nos_recursos rs (grafo_nos_processos ps nx.vazio)) rs) ps.
Proof.
  unfold construir_grafo, grafo_arestas_espera, grafo_arestas_dono.
  set (G2 := grafo_nos_recursos rs _).
  rewrite (foldl_ext_fun _ (λ G r, add_aresta G (aresta_dono ps r)) rs G2).
  - apply foldl_ext_fun. intros G p. unfold aresta_espera.
    destruct (recurso_aguardando p) as [a|]; simpl; [|done]. by destruct (rs !! a).
  - intros G r. unfold aresta_dono.
    destruct (dono r) as [d|]; simpl; [|done]. by destruct (ps !! d).
Qed.

(** The edges are the "held by" and the "waiting for" edges. *)
Lemma construir_grafo_arestas (ps : list Processo) (rs : list Recurso) (u v : string) :
  aresta (construir_grafo ps rs) u v
  ↔ (∃ r, r ∈ rs ∧ aresta_dono ps r = Some (u, v))
    ∨ (∃ p, p ∈ ps ∧ aresta_espera rs p = Some (u, v)).
Proof.
  rewrite construir_grafo_add_aresta, !foldl_add_aresta.
  unfold aresta at 1, grafo_nos_recursos, grafo_nos_processos.
  rewrite !foldl_add_node_edges. simpl. rewrite elem_of_nil. tauto.
Qed.

(** The nodes are the processes and the resources. *)
Lemma construir_grafo_nos (ps : list Processo) (rs : list Recurso) (n : string) :
  n ∈ (nx.nodes (construir_grafo ps rs)).*1
  ↔ (∃ p, p ∈ ps ∧ n = no_processo p) ∨ (∃ r, r ∈ rs ∧ n = no_recurso r).
Proof.
  assert (H0 : ∀ m, m ∈ (nx.nodes (grafo_nos_recursos rs
                            (grafo_nos_processos ps nx.vazio))).*1
                ↔ (∃ p, p ∈ ps ∧ m = no_processo p) ∨ (∃ r, r ∈ rs ∧ m = no_recurso r)).
  { intros m. unfold grafo_nos_recursos, grafo_nos_processos.
    rewrite !foldl_add_node_nomes. simpl. rewrite elem_of_nil. tauto. }
  rewrite construir_grafo_add_aresta.
  set (G2 := grafo_nos_recursos rs _) in *.
  assert (H1 : ∀ m, m ∈ (nx.nodes (foldl (λ G r, add_aresta G (aresta_dono ps r))
                                      G2 rs)).*1 ↔ m ∈ (nx.nodes G2).*1).
  { intros m. apply foldl_add_aresta_nomes.
    intros r a b Hr E. rewrite !H0. unfold aresta_dono in E.
    destruct (dono r) as [d|]; simpl in E; [|done].
    destruct (ps !! d) as [q|] eqn:Hq; simplify_eq/=.
    apply list_elem_of_lookup_2 in Hq. split; [right|left]; eauto. }
  rewrite foldl_add_aresta_nomes; [by rewrite H1|].
  intros p a b Hp E. rewrite !H1, !H0. unfold aresta_espera in E.
  destruct (recurso_aguardando p) as [w|]; simpl in E; [|done].
  destruct (rs !! w) as [r|] eqn:Hr; simplify_eq/=.
  apply list_elem_of_lookup_2 in Hr. split; [left|right]; eauto.
Qed.

(** *** The set of processes in deadlock *)

Lemma coletar_processos_spec (cs : list (list string)) (n : string) :
  n ∈ coletar_processos cs
  ↔ String.prefix "P" n = true ∧ ∃ c, c ∈ cs ∧ n ∈ c.
Proof.
  unfold coletar_processos.
  assert (Hin : ∀ c (acc : gset string),
    n ∈ foldl (λ acc node, if String.prefix "P" node then acc ∪ {[node]} else acc)
          acc c
    ↔ n ∈ acc ∨ (String.prefix "P" n = true ∧ n ∈ c)).
  { induction c as [|x c IH]; intros acc; simpl.
    - rewrite elem_of_nil. tauto.
    - rewrite IH, elem_of_cons. destruct (String.prefix "P" x) eqn:E.
      + rewrite elem_of_union, elem_of_singleton. split; [|naive_solver].
        intros [[?| ->]|[? ?]]; auto.
      + split; [naive_solver|]. intros [?|[Hp [-> |?]]]; auto. congruence. }
  assert (Hout : ∀ cs (acc : gset string),
    n ∈ foldl (λ acc cycle,
          foldl (λ acc node, if String.prefix "P" node then acc ∪ {[node]} else acc)
            acc cycle) acc cs
    ↔ n ∈ acc ∨ (String.prefix "P" n = true ∧ ∃ c, c ∈ cs ∧ n ∈ c)).
  { clear cs. induction cs as [|c cs IH]; intros acc; simpl.
    - split; [by left|]. intros [?|[_ (c & Hc & _)]]; [done|].
      by apply elem_of_nil in Hc.
    - rewrite IH, Hin. split.
      + intros [[?|[? ?]]|[? (c' & ? & ?)]]; auto.
        * right. split; [done|]. exists c. split; [by left|done].
        * right. split; [done|]. exists c'. split; [by right|done].
      + intros [?|[? (c' & [-> |?]%elem_of_cons & ?)]]; auto.
        right. split; [done|]. by exists c'. }
  rewrite Hout, elem_of_empty. tauto.
Qed.

(** What a snapshot holds, for every store: the allocation graph, every
    elementary circuit of it exactly once, and the processes that lie on
    a circuit. *)
Theorem detectar_deadlock_spec (so : Estado) :
  let snap := detectar_deadlock so in
  graph snap = construir_grafo (processos so) (recursos so)
  ∧ (∀ c, c ∈ cycles snap → circuito (graph snap) c)
  ∧ (∀ c, circuito (graph snap) c → ∃ c', rotacao c c' ∧ c' ∈ cycles snap)
  ∧ NoDup (cycles snap)
  ∧ (∀ c c', c ∈ cycles snap → c' ∈ cycles snap → rotacao c c' → c = c')
  ∧ NoDup (in_deadlock snap)
  ∧ (∀ n, n ∈ in_deadlock snap
          ↔ String.prefix "P" n = true ∧ ∃ c, c ∈ cycles snap ∧ n ∈ c).
Proof.
  simpl. split; [done|].
  destruct (simple_cycles_spec _ (construir_grafo_ok (processos so) (recursos so)))
    as (H1 & H2 & H3 & H4).
  do 4 (split; [done|]). split; [apply NoDup_elements|].
  intros n. by rewrite elem_of_elements, coletar_processos_spec.
Qed.

(** ** The detector reads identifiers, owners and waiting pointers only *)

Lemma construir_grafo_chaves_eq (ps : list Processo) (rs : list Recurso) :
  construir_grafo ps rs = construir_grafo_chaves (chave_p <$> ps) (chave_r <$> rs).
Proof.
  unfold construir_grafo, construir_grafo_chaves, grafo_arestas_espera,
    grafo_arestas_dono, grafo_nos_recursos, grafo_nos_processos.
  rewrite !foldl_fmap. simpl.
  set (G2 := foldl _ (foldl _ nx.vazio ps) rs).
  set (G3 := foldl _ G2 rs).
  set (G3' := foldl _ G2 rs).
  assert (G3 = G3') as ->.
  { apply foldl_ext_fun. intros G r. destruct (dono r) as [d|]; [|done].
    rewrite list_lookup_fmap. by destruct (ps !! d). }
  apply foldl_ext_fun. intros G p. destruct (recurso_aguardando p) as [a|]; [|done].
  rewrite list_lookup_fmap. by destruct (rs !! a).
Qed.

Lemma detectar_deadlock_alocacao (st1 st2 : Estado) :
  mesma_alocacao st1 st2 → detectar_deadlock st1 = detectar_deadlock st2.
Proof.
  intros [Hp Hr]. unfold detectar_deadlock.
  by rewrite !construir_grafo_chaves_eq, Hp, Hr.
Qed.

(** ** Scenarios: they are states of the running simulation *)

Lemma app_AB_inicial : estado_inicial (App.estado app_AB).
Proof. repeat split; repeat constructor. Qed.

Lemma cenario_posse_passos : rtc passo (App.estado app_AB) cenario_posse.
Proof.
  eapply rtc_l; [by eapply (passo_tick _ 0 0)|].
  eapply rtc_l; [by eapply (passo_solicitar _ 0 0)|].
  eapply rtc_l; [by eapply (passo_tick _ 1 1)|].
  eapply rtc_l; [by eapply (passo_solicitar _ 1 1)|].
  apply rtc_refl.
Qed.

Lemma cenario_bloqueio_passos : rtc passo cenario_posse cenario_bloqueio.
Proof.
  eapply rtc_l; [by eapply (passo_tick _ 1 0)|].
  eapply rtc_l; [by eapply (passo_solicitar _ 1 0)|].
  apply rtc_refl.
Qed.

Lemma cenario_deadlock_passos : rtc passo cenario_bloqueio cenario_deadlock.
Proof.
  eapply rtc_l; [by eapply (passo_tick _ 0 0)|].
  eapply rtc_l; [by eapply (passo_solicitar _ 0 1)|].
  apply rtc_refl.
Qed.

Lemma cenario_posse_alcancavel : alcancavel cenario_posse.
Proof. exists (App.estado app_AB). split; [apply app_AB_inicial | apply cenario_posse_passos]. Qed.

Lemma cenario_bloqueio_alcancavel : alcancavel cenario_bloqueio.
Proof.
  exists (App.estado app_AB). split; [apply app_AB_inicial|].
  etrans; [apply cenario_posse_passos | apply cenario_bloqueio_passos].
Qed.

Lemma cenario_deadlock_alcancavel : alcancavel cenario_deadlock.
Proof.
  destruct cenario_bloqueio_alcancavel as (st0 & H0 & Hr).
  exists st0. split; [done|]. etrans; [apply Hr | apply cenario_deadlock_passos].
Qed.

Lemma app_tres_inicial : estado_inicial (App.estado app_tres).
Proof. repeat split; repeat constructor. Qed.

Lemma cenario_dois_dormem_alcancavel : alcancavel cenario_dois_dormem.
Proof.
  exists (App.estado app_tres). split; [apply app_tres_inicial|].
  eapply rtc_l; [by eapply (passo_tick _ 0 0)|].
  eapply rtc_l; [by eapply (passo_solicitar _ 0 0)|].
  eapply rtc_l; [by eapply (passo_tick _ 0 0)|].
  eapply rtc_l; [by eapply (passo_solicitar _ 0 1)|].
  eapply rtc_l; [by eapply (passo_tick _ 1 0)|].
  eapply rtc_l; [by eapply (passo_solicitar _ 1 0)|].
  eapply rtc_l; [by eapply (passo_tick _ 2 0)|].
  eapply rtc_l; [by eapply (passo_solicitar _ 2 0)|].
  apply rtc_refl.
Qed.

(** ** The detector on the two scenarios *)

Lemma detectar_deadlock_cenario_deadlock :
  detectar_deadlock cenario_deadlock =
  {| graph :=
       {| nx.nodes := [("P1", Some "processo"); ("P2", Some "processo");
                       ("R1", Some "recurso"); ("R2", Some "recurso")];
          nx.edges := [("R1", "P1"); ("R2", "P2"); ("P1", "R2"); ("P2", "R1")] |};
     cycles := [["P1"; "R2"; "P2"; "R1"]];
     in_deadlock := ["P1"; "P2"] |}.
Proof. vm_compute. reflexivity. Qed.

Lemma detectar_deadlock_cenario_bloqueio :
  detectar_deadlock cenario_bloqueio =
  {| graph :=
       {| nx.nodes := [("P1", Some "processo"); ("P2", Some "processo");
                       ("R1", Some "recurso"); ("R2", Some "recurso")];
          nx.edges := [("R1", "P1"); ("R2", "P2"); ("P2", "R1")] |};
     cycles := [];
     in_deadlock := [] |}.
Proof. vm_compute. reflexivity. Qed.

(** C1. In a store with the resources A and B (identifiers 1 and 2) and
    the processes P1 and P2, where P1 owns A and waits on B while P2 owns
    B and waits on A, [detectar_deadlock] reports exactly one cycle, the
    cycle contains both P1 and P2, and the set of processes in deadlock is
    {P1, P2}. *)
Theorem C1_deadlock_um_ciclo (st : Estado) (p1 p2 : Processo) (a b : Recurso) :
  processos st = [p1; p2] → recursos st = [a; b] →
  p_id p1 = 1%Z → p_id p2 = 2%Z → r_id a = 1%Z → r_id b = 2%Z →
  dono a = Some 0 → recurso_aguardando p1 = Some 1 →
  dono b = Some 1 → recurso_aguardando p2 = Some 0 →
  let snap := detectar_deadlock st in
  (∃ c, cycles snap = [c] ∧ "P1" ∈ c ∧ "P2" ∈ c)
  ∧ in_deadlock snap ≡ₚ ["P1"; "P2"].
Proof.
  intros Hps Hrs Hp1 Hp2 Ha Hb Hda Hw1 Hdb Hw2 snap. subst snap.
  rewrite (detectar_deadlock_alocacao st cenario_deadlock).
  - rewrite detectar_deadlock_cenario_deadlock. simpl. split; [|done].
    eexists. split; [done|]. split; [left | do 2 right; left].
  - split; [rewrite Hps | rewrite Hrs]; simpl; unfold chave_p, chave_r.
    + by rewrite Hp1, Hp2, Hw1, Hw2.
    + by rewrite Ha, Hb, Hda, Hdb.
Qed.

Lemma C1_deadlock_um_ciclo_witness :
  let snap := detectar_deadlock cenario_deadlock in
  (∃ c, cycles snap = [c] ∧ "P1" ∈ c ∧ "P2" ∈ c)
  ∧ in_deadlock snap ≡ₚ ["P1"; "P2"].
Proof.
  apply (C1_deadlock_um_ciclo cenario_deadlock
           (proc 1 [0] (Some 1) (Esperando 1)) (proc 2 [1] (Some 0) (Esperando 0))
           (mkRecurso 1 "A" (Some 0) [1]) (mkRecurso 2 "B" (Some 1) [0]));
    reflexivity.
Defined.

(** C2. In a store with the resources A and B and the processes P1 and
    P2, where P1 owns A and waits on nothing while P2 owns B and waits on
    A, [detectar_deadlock] reports no cycle and an empty set of processes
    in deadlock, although P2 is blocked. *)
Theorem C2_bloqueio_sem_ciclo (st : Estado) (p1 p2 : Processo) (a b : Recurso) :
  processos st = [p1; p2] → recursos st = [a; b] →
  p_id p1 = 1%Z → p_id p2 = 2%Z → r_id a = 1%Z → r_id b = 2%Z →
  dono a = Some 0 → recurso_aguardando p1 = None →
  dono b = Some 1 → recurso_aguardando p2 = Some 0 →
  let snap := detectar_deadlock st in
  cycles snap = [] ∧ in_deadlock snap = [].
Proof.
  intros Hps Hrs Hp1 Hp2 Ha Hb Hda Hw1 Hdb Hw2 snap. subst snap.
  rewrite (detectar_deadlock_alocacao st cenario_bloqueio).
  - by rewrite detectar_deadlock_cenario_bloqueio.
  - split; [rewrite Hps | rewrite Hrs]; simpl; unfold chave_p, chave_r.
    + by rewrite Hp1, Hp2, Hw1, Hw2.
    + by rewrite Ha, Hb, Hda, Hdb.
Qed.

Lemma C2_bloqueio_sem_ciclo_witness :
  let snap := detectar_deadlock cenario_bloqueio in
  cycles snap = [] ∧ in_deadlock snap = [].
Proof.
  apply (C2_bloqueio_sem_ciclo cenario_bloqueio
           (proc 1 [0] None Ocioso) (proc 2 [1] (Some 0) (Esperando 0))
           (mkRecurso 1 "A" (Some 0) [1]) (mkRecurso 2 "B" (Some 1) []));
    reflexivity.
Defined.

(** C9. Two runs of [detectar_deadlock] on stores with the same
    allocation (owner fields and waiting pointers unchanged, whatever else
    happened in between) give the same graph, the same list of cycles and
    the same list of processes in deadlock. *)
Theorem C9_snapshot_idempotente (st1 st2 : Estado) :
  mesma_alocacao st1 st2 →
  graph (detectar_deadlock st1) = graph (detectar_deadlock st2)
  ∧ cycles (detectar_deadlock st1) = cycles (detectar_deadlock st2)
  ∧ in_deadlock (detectar_deadlock st1) = in_deadlock (detectar_deadlock st2).
Proof. intros H. by rewrite (detectar_deadlock_alocacao st1 st2 H). Qed.

Lemma C9_snapshot_idempotente_witness :
  graph (detectar_deadlock cenario_deadlock)
    = graph (detectar_deadlock cenario_deadlock_depois)
  ∧ cycles (detectar_deadlock cenario_deadlock)
    = cycles (detectar_deadlock cenario_deadlock_depois)
  ∧ in_deadlock (detectar_deadlock cenario_deadlock)
    = in_deadlock (detectar_deadlock cenario_deadlock_depois).
Proof.
  apply (C9_snapshot_idempotente cenario_deadlock cenario_deadlock_depois).
  split; reflexivity.
Defined.

(** ** Effect of each block on the projections of the store *)

Lemma proj_insert {A B : Type} (f : A → B) (d : B) (l : list A) (i j : nat) (x y : A) :
  l !! i = Some y →
  from_option f d (<[i:=x]> l !! j)
  = if decide (j = i) then f x else from_option f d (l !! j).
Proof.
  intros Hi. rewrite list_lookup_insert. apply lookup_lt_Some in Hi.
  repeat case_decide; naive_solver.
Qed.

Lemma py_remove_elem_ne (x r : nat) (l : list nat) :
  x ≠ r → x ∈ py_remove r l ↔ x ∈ l.
Proof.
  intros Hne. induction l as [|y l IH]; simpl; [done|].
  case_decide; subst; rewrite ?elem_of_cons; naive_solver.
Qed.

Lemma py_remove_subseteq (r : nat) (l : list nat) : py_remove r l ⊆ l.
Proof.
  induction l as [|y l IH]; simpl; [done|].
  case_decide; [by apply list_subseteq_cons|].
  intros x. rewrite !elem_of_cons. naive_solver.
Qed.

Lemma py_remove_NoDup (r : nat) (l : list nat) : NoDup l → NoDup (py_remove r l).
Proof.
  induction 1 as [|y l Hy Hl IH]; simpl; [constructor|].
  case_decide; [done|]. constructor; [|done].
  intros Hin. by apply py_remove_subseteq in Hin.
Qed.

Lemma py_remove_not_elem (r : nat) (l : list nat) : NoDup l → r ∉ py_remove r l.
Proof.
  induction 1 as [|y l Hy Hl IH]; simpl; [by intros ?%elem_of_nil|].
  case_decide; subst; [done|]. rewrite elem_of_cons. naive_solver.
Qed.

Lemma py_remove_not_in (r : nat) (l : list nat) : r ∉ l → py_remove r l = l.
Proof.
  induction l as [|y l IH]; simpl; [done|].
  rewrite elem_of_cons. intros Hn. case_decide; [naive_solver|].
  f_equal. apply IH. naive_solver.
Qed.

Lemma py_remove_elem (x r : nat) (l : list nat) :
  NoDup l → x ∈ py_remove r l ↔ x ∈ l ∧ x ≠ r.
Proof.
  intros Hnd. destruct (decide (x = r)) as [->|Hne].
  - split; [|tauto]. intros Hx. by apply py_remove_not_elem in Hx.
  - rewrite py_remove_elem_ne by done. tauto.
Qed.

Lemma filter_ne_not_elem (r : nat) (l : list nat) :
  r ∉ l → filter (λ x, x ≠ r) l = l.
Proof.
  induction l as [|y l IH]; [done|]. intros [Hy Hl]%not_elem_of_cons.
  rewrite filter_cons_True by done. f_equal. by apply IH.
Qed.

Lemma py_remove_filter (r : nat) (l : list nat) :
  NoDup l → py_remove r l = filter (λ x, x ≠ r) l.
Proof.
  induction 1 as [|y l Hy Hl IH]; [done|]. simpl. case_decide; subst.
  - rewrite filter_cons_False by (by intros ?). by rewrite filter_ne_not_elem.
  - rewrite filter_cons_True by done. by rewrite IH.
Qed.

Lemma notify_all_lookup (r : nat) (ws : list nat) (ps : list Processo) (q : nat) :
  notify_all r ws ps !! q
  = (if decide (q ∈ ws) then set_pc (Acordado r) else id) <$> ps !! q.
Proof.
  unfold notify_all. revert ps. induction ws as [|w ws IH]; intros ps; cbn [foldl].
  - rewrite decide_False by apply not_elem_of_nil. by destruct (ps !! q).
  - rewrite IH, list_lookup_alter.
    destruct (decide (w = q)) as [->|Hne].
    + rewrite (decide_True (P := q ∈ q :: ws)) by left.
      destruct (ps !! q); simpl; [|done]. by case_decide.
    + destruct (ps !! q); simpl; [|done].
      repeat case_decide; try done; set_solver.
Qed.

Lemma notify_all_length (r : nat) (ws : list nat) (ps : list Processo) :
  length (notify_all r ws ps) = length ps.
Proof.
  unfold notify_all. revert ps. induction ws as [|w ws IH]; intros ps; simpl; [done|].
  by rewrite IH, length_alter.
Qed.

Lemma escolher_Some (st : Estado) (p k r : nat) :
  escolher st p k = Some r → (r ∉ posse_de st p) ∧ r < length (recursos st).
Proof.
  unfold escolher, posse_de, choice.
  destruct (processos st !! p) as [me|]; [|done]. simpl.
  case_bool_decide; [done|]. intros Hr.
  apply list_elem_of_lookup_2 in Hr. unfold disponiveis_para_pedir in Hr.
  apply list_elem_of_filter in Hr as [Hn Hs]. apply elem_of_seq in Hs. split; [done|lia].
Qed.

(** The invariant at the process [p] whose object is [me]. *)
Lemma consistente_em (st : Estado) (p : nat) (me : Processo) :
  consistente st → processos st !! p = Some me →
  (∀ r, dono_de st r = Some p ↔ r ∈ recursos_posse me)
  ∧ NoDup (recursos_posse me)
  ∧ (∀ r, pedido (pc me) = Some r → r ∉ recursos_posse me)
  ∧ recurso_aguardando me = publicado (pc me)
  ∧ (∀ r, pc me = Esperando r ↔ p ∈ condicao_de st r).
Proof.
  intros [Ha Hb Hc Hd He] Hme.
  specialize (Hb p). specialize (Hc p). specialize (Hd p). specialize (He p).
  pose proof (λ r, Ha r p) as Ha'.
  unfold posse_de, pc_de, aguardando_de in *. rewrite Hme in *. simpl in *. done.
Qed.

Lemma run_tick_consistente (st : Estado) (p k : nat) :
  consistente st → pc_de st p = Ocioso → consistente (run_tick st p k).
Proof.
  intros Hc Hpc. unfold run_tick.
  destruct (processos st !! p) as [me|] eqn:Hme; [|done].
  destruct (escolher st p k) as [r|] eqn:Hr; [|done].
  destruct (recursos st !! r) as [rc|] eqn:Hrc; [|done].
  apply escolher_Some in Hr as [Hr _].
  destruct (consistente_em st p me Hc Hme) as (Ha' & Hb' & Hc' & Hd' & He').
  destruct Hc as [Ha Hb Hc Hd He]. proj_unfold. rewrite Hme in Hpc, Hr. simpl in Hpc, Hr.
  rewrite Hpc in *. simpl in *.
  split; proj_unfold; simpl; intros;
    rewrite ?(proj_insert _ _ _ _ _ _ _ Hme) in *; simpl in *;
    repeat case_decide; subst; simpl in *; eauto;
    try (clear Ha Hb Hc Hd He; timeout 5 naive_solver).
Qed.

Lemma solicitar_recurso_consistente (st : Estado) (p r : nat) :
  consistente st →
  pc_de st p = Solicitando r ∨ pc_de st p = Acordado r →
  consistente (solicitar_recurso st p r).1.
Proof.
  intros Hc Hpc. unfold solicitar_recurso.
  destruct (processos st !! p) as [me|] eqn:Hme; [|done].
  destruct (recursos st !! r) as [rc|] eqn:Hrc; [|done].
  destruct (consistente_em st p me Hc Hme) as (Ha' & Hb' & Hc' & Hd' & He').
  destruct Hc as [Ha Hb Hc Hd He]. proj_unfold. rewrite Hme in Hpc. simpl in Hpc.
  pose proof (λ q, Ha r q) as Har. pose proof (λ q, He q r) as Her.
  pose proof (Ha' r) as Hapr. pose proof (He' r) as Hepr.
  rewrite Hrc in Har, Her, Hapr, Hepr. simpl in Har, Her, Hapr, Hepr.
  assert (Hnr : r ∉ recursos_posse me) by (apply Hc'; by destruct Hpc as [-> | ->]).
  assert (Hne : ∀ r', pc me ≠ Esperando r') by (intros r'; by destruct Hpc as [-> | ->]).
  destruct (dono rc) as [d|] eqn:Hd0; simpl.
  - split; proj_unfold; simpl; intros;
      rewrite ?(proj_insert _ _ _ _ _ _ _ Hme) in *;
      rewrite ?(proj_insert _ _ _ _ _ _ _ Hrc) in *; simpl in *;
      repeat case_decide; subst; simpl in *; eauto;
      rewrite ?elem_of_app, ?list_elem_of_singleton;
      try (clear Ha Hb Hc Hd He; timeout 5 naive_solver).
  - split; proj_unfold; simpl; intros;
      rewrite ?(proj_insert _ _ _ _ _ _ _ Hme) in *;
      rewrite ?(proj_insert _ _ _ _ _ _ _ Hrc) in *; simpl in *;
      repeat case_decide; subst; simpl in *; eauto;
      rewrite ?elem_of_app, ?list_elem_of_singleton;
      try (clear Ha Hb Hc Hd He; timeout 5 naive_solver).
    apply NoDup_app. split; [done|]. split; [|apply NoDup_singleton].
    by intros x Hx ->%list_elem_of_singleton.
Qed.

Lemma proj_notify_all {B : Type} (f : Processo → B) (d : B) (r : nat)
    (ws : list nat) (ps : list Processo) (q : nat) :
  (∀ c x, f (set_pc c x) = f x) →
  from_option f d (notify_all r ws ps !! q) = from_option f d (ps !! q).
Proof.
  intros Hf. rewrite notify_all_lookup.
  destruct (ps !! q); simpl; [|done]. by case_decide.
Qed.

Lemma pc_notify_all (r : nat) (ws : list nat) (ps : list Processo) (q : nat) :
  from_option pc Ocioso (notify_all r ws ps !! q)
  = if decide (q ∈ ws ∧ q < length ps) then Acordado r
    else from_option pc Ocioso (ps !! q).
Proof.
  rewrite notify_all_lookup.
  destruct (ps !! q) as [x|] eqn:Hq; simpl.
  - apply lookup_lt_Some in Hq. repeat case_decide; naive_solver.
  - apply lookup_ge_None in Hq. rewrite decide_False; [done|]. intros [_ ?]. lia.
Qed.

(** What a release by the holder does to the store. *)
Lemma liberar_recurso_agendado_efeito (st : Estado) (p r : nat)
    (me : Processo) (rc : Recurso) :
  processos st !! p = Some me → recursos st !! r = Some rc →
  r ∈ recursos_posse me →
  let st' := liberar_recurso_agendado st p r in
  (∀ r', dono_de st' r' = if decide (r' = r) then None else dono_de st r')
  ∧ (∀ q, posse_de st' q
          = if decide (q = p) then py_remove r (recursos_posse me)
            else posse_de st q)
  ∧ (∀ q, aguardando_de st' q = aguardando_de st q)
  ∧ (∀ q, pc_de st' q
          = if decide (q ∈ condicao rc ∧ q < length (processos st))
            then Acordado r else pc_de st q)
  ∧ (∀ r', condicao_de st' r' = if decide (r' = r) then [] else condicao_de st r').
Proof.
  intros Hme Hrc Hin st'. subst st'. unfold liberar_recurso_agendado.
  rewrite Hme, Hrc, bool_decide_true by done.
  proj_unfold. simpl. repeat split; intros.
  - by rewrite (proj_insert _ _ _ _ _ _ _ Hrc).
  - rewrite proj_notify_all by done. by rewrite (proj_insert _ _ _ _ _ _ _ Hme).
  - rewrite proj_notify_all by done. rewrite (proj_insert _ _ _ _ _ _ _ Hme).
    case_decide; subst; [|done]. by rewrite Hme.
  - rewrite pc_notify_all, length_insert. case_decide; [done|].
    rewrite (proj_insert _ _ _ _ _ _ _ Hme).
    case_decide; subst; [|done]. by rewrite Hme.
  - by rewrite (proj_insert _ _ _ _ _ _ _ Hrc).
Qed.

Lemma liberar_recurso_agendado_consistente (st : Estado) (p r : nat) :
  consistente st → consistente (liberar_recurso_agendado st p r).
Proof.
  intros Hc.
  destruct (processos st !! p) as [me|] eqn:Hme;
    [|by unfold liberar_recurso_agendado; rewrite Hme].
  destruct (recursos st !! r) as [rc|] eqn:Hrc;
    [|by unfold liberar_recurso_agendado; rewrite Hme, Hrc].
  destruct (decide (r ∈ recursos_posse me)) as [Hin|Hin];
    [|by unfold liberar_recurso_agendado; rewrite Hme, Hrc, bool_decide_false].
  destruct (liberar_recurso_agendado_efeito st p r me rc Hme Hrc Hin)
    as (Ed & Eh & Ew & Ec & Eq).
  destruct (consistente_em st p me Hc Hme) as (Ha' & Hb' & Hc' & Hd' & He').
  destruct Hc as [Ha Hb Hc Hd He].
  assert (Her : ∀ q, q ∈ condicao rc ∧ q < length (processos st)
                     ↔ pc_de st q = Esperando r).
  { intros q. split.
    - intros [Hq _]. apply He. unfold condicao_de. by rewrite Hrc.
    - intros Hq. split.
      + apply He in Hq. unfold condicao_de in Hq. by rewrite Hrc in Hq.
      + unfold pc_de in Hq.
        destruct (processos st !! q) eqn:E; [by apply lookup_lt_Some in E|done]. }
  assert (Hpm : ∀ q, posse_de st q = if decide (q = p) then recursos_posse me
                                     else posse_de st q).
  { intros q. case_decide; subst; [|done]. unfold posse_de. by rewrite Hme. }
  split.
  - intros r0 q. rewrite Ed, Eh.
    destruct (decide (r0 = r)) as [->|Hr0], (decide (q = p)) as [->|Hq].
    + split; [done|]. intros Hx. by apply py_remove_not_elem in Hx.
    + split; [done|]. intros Hx. apply Ha in Hx. apply Ha' in Hin. congruence.
    + by rewrite py_remove_elem_ne, <- Ha'.
    + apply Ha.
  - intros q. rewrite Eh. case_decide; [by apply py_remove_NoDup | apply Hb].
  - intros q r0. rewrite Ec, Eh. intros Hped.
    assert (pedido (pc_de st q) = Some r0) as Hped'.
    { case_decide as Hw; [|done]. apply Her in Hw. by rewrite Hw. }
    apply Hc in Hped'. rewrite Hpm in Hped'.
    case_decide; [|done]. intros Hx. by apply py_remove_subseteq in Hx.
  - intros q. rewrite Ew, Ec, Hd.
    case_decide as Hw; [|done]. apply Her in Hw. by rewrite Hw.
  - intros q r0. rewrite Ec, Eq.
    destruct (decide (r0 = r)) as [->|Hr0].
    + rewrite elem_of_nil. case_decide as Hw; [done|].
      rewrite Her in Hw. naive_solver.
    + rewrite <- He. case_decide as Hw; [|done].
      apply Her in Hw. rewrite Hw. naive_solver.
Qed.

(** ** The invariant holds in every state of the simulation *)

Lemma consistente_ext (st : Estado) (ts : list (nat * nat)) (l : list string) :
  consistente st →
  consistente {| processos := processos st; recursos := recursos st;
                 timers := ts; log := l |}.
Proof. intros [Ha Hb Hc Hd He]. by split. Qed.

Lemma disparar_timer_consistente (st : Estado) (i : nat) :
  consistente st → consistente (disparar_timer st i).
Proof.
  intros Hc. unfold disparar_timer.
  destruct (timers st !! i) as [[p r]|]; [|done].
  by apply liberar_recurso_agendado_consistente, consistente_ext.
Qed.

Lemma estado_inicial_consistente (st : Estado) :
  estado_inicial st → consistente st.
Proof.
  intros (Hps & Hrs & _).
  assert (Hp : ∀ p, posse_de st p = [] ∧ aguardando_de st p = None
                    ∧ pc_de st p = Ocioso).
  { intros p. unfold posse_de, aguardando_de, pc_de.
    destruct (processos st !! p) as [me|] eqn:Hme; [|done].
    by apply (Forall_lookup_1 _ _ _ _ Hps) in Hme. }
  assert (Hr : ∀ r, dono_de st r = None ∧ condicao_de st r = []).
  { intros r. unfold dono_de, condicao_de.
    destruct (recursos st !! r) as [rc|] eqn:Hrc; [|done].
    by apply (Forall_lookup_1 _ _ _ _ Hrs) in Hrc. }
  split.
  - intros r p. destruct (Hp p) as (-> & _), (Hr r) as (-> & _).
    split; [done|]. by intros ?%elem_of_nil.
  - intros p. destruct (Hp p) as (-> & _). constructor.
  - intros p r. destruct (Hp p) as (-> & _). intros _. apply not_elem_of_nil.
  - intros p. by destruct (Hp p) as (_ & -> & ->).
  - intros p r. destruct (Hp p) as (_ & _ & ->), (Hr r) as (_ & ->).
    split; [done|]. by intros ?%elem_of_nil.
Qed.

Lemma passo_consistente (st st' : Estado) :
  passo st st' → consistente st → consistente st'.
Proof.
  intros Hpasso Hc. destruct Hpasso as [st p k me Hme Hpc _ _ | st p r me Hme Hpc
                                       | st p r me Hme Hpc | st i _].
  - apply run_tick_consistente; [done|]. unfold pc_de. by rewrite Hme.
  - apply solicitar_recurso_consistente; [done|]. left. unfold pc_de. by rewrite Hme.
  - apply solicitar_recurso_consistente; [done|]. right. unfold pc_de. by rewrite Hme.
  - by apply disparar_timer_consistente.
Qed.

Lemma alcancavel_consistente (st : Estado) : alcancavel st → consistente st.
Proof.
  intros (st0 & H0 & Hrtc). apply estado_inicial_consistente in H0.
  induction Hrtc as [|x y z Hxy _ IH]; [done|].
  by apply IH, (passo_consistente x y).
Qed.

(** ** Ownership *)

(** C3. In every state the simulation reaches through the acquire and
    release blocks (and the other steps of the threads), a resource is in
    the held list of at most one process, and its [dono] field points to a
    process exactly when the resource is in the held list of that
    process. *)
Theorem C3_dono_e_posse (st : Estado) :
  alcancavel st →
  (∀ r p q, r ∈ posse_de st p → r ∈ posse_de st q → p = q)
  ∧ (∀ r p, dono_de st r = Some p ↔ r ∈ posse_de st p).
Proof.
  intros Hc%alcancavel_consistente. destruct Hc as [Ha _ _ _ _].
  split; [|done]. intros r p q Hp%Ha Hq%Ha. congruence.
Qed.

Lemma C3_dono_e_posse_witness :
  (∀ r p q, r ∈ posse_de cenario_deadlock p → r ∈ posse_de cenario_deadlock q → p = q)
  ∧ (∀ r p, dono_de cenario_deadlock r = Some p ↔ r ∈ posse_de cenario_deadlock p).
Proof. exact (C3_dono_e_posse cenario_deadlock cenario_deadlock_alcancavel). Defined.

(** C4. When process [p] asks for resource [r], the request is granted
    without waiting exactly when [r] has no owner; a granted request
    leaves [r] owned by [p], [p] waiting on nothing, and [r] added to the
    held list of [p]. *)
Theorem C4_recurso_livre (st : Estado) (p r : nat) (me : Processo) (rc : Recurso) :
  processos st !! p = Some me → recursos st !! r = Some rc →
  ((solicitar_recurso st p r).2 = Pegou ↔ dono rc = None)
  ∧ (dono rc = None →
     let st' := (solicitar_recurso st p r).1 in
     dono_de st' r = Some p
     ∧ aguardando_de st' p = None
     ∧ posse_de st' p = recursos_posse me ++ [r]
     ∧ pc_de st' p = Ocioso).
Proof.
  intros Hme Hrc. unfold solicitar_recurso. rewrite Hme, Hrc.
  destruct (dono rc) as [d|]; simpl; [by split|].
  split; [done|]. intros _. proj_unfold. simpl.
  rewrite !(proj_insert _ _ _ _ _ _ _ Hme), (proj_insert _ _ _ _ _ _ _ Hrc).
  by rewrite !decide_True.
Qed.

Lemma C4_recurso_livre_witness :
  ((solicitar_recurso (App.estado app_AB) 0 0).2 = Pegou
     ↔ dono (mkRecurso 1 "A" None []) = None)
  ∧ (dono (mkRecurso 1 "A" None []) = None →
     let st' := (solicitar_recurso (App.estado app_AB) 0 0).1 in
     dono_de st' 0 = Some 0
     ∧ aguardando_de st' 0 = None
     ∧ posse_de st' 0 = recursos_posse (proc 1 [] None Ocioso) ++ [0]
     ∧ pc_de st' 0 = Ocioso).
Proof.
  exact (C4_recurso_livre (App.estado app_AB) 0 0 (proc 1 [] None Ocioso)
           (mkRecurso 1 "A" None []) eq_refl eq_refl).
Defined.

(** C5. In every state of the simulation, when process [p] releases a
    resource [r] of its held list, [r] ends with no owner, [r] is gone
    from the held list of [p] (the other entries stay), and every
    process waiting on [r] is awake: all threads asleep on the condition
    of [r] are notified, none stays on it.  The held list of [p] keeps
    exactly its other entries, in their order; the held lists of the
    other processes and the owners of the other resources do not
    change. *)
Theorem C5_liberacao_acorda_todos (st : Estado) (p r : nat) :
  alcancavel st → r ∈ posse_de st p →
  let st' := liberar_recurso_agendado st p r in
  dono_de st' r = None
  ∧ (r ∉ posse_de st' p)
  ∧ posse_de st' p = py_remove r (posse_de st p)
  ∧ (∀ w, w ∈ condicao_de st r → pc_de st' w = Acordado r)
  ∧ (∀ w, aguardando_de st w = Some r → pc_de st' w = Acordado r)
  ∧ condicao_de st' r = []
  ∧ (∀ x, x ∈ posse_de st' p ↔ x ∈ posse_de st p ∧ x ≠ r)
  ∧ posse_de st' p = filter (λ x, x ≠ r) (posse_de st p)
  ∧ (∀ q, q ≠ p → posse_de st' q = posse_de st q)
  ∧ (∀ r', r' ≠ r → dono_de st' r' = dono_de st r').
Proof.
  intros Hc%alcancavel_consistente Hin st'.
  pose proof (cons_dono st Hc r p) as Hd. apply Hd in Hin as Hdono.
  unfold posse_de in Hin. unfold dono_de in Hdono.
  destruct (processos st !! p) as [me|] eqn:Hme; [|by apply elem_of_nil in Hin].
  destruct (recursos st !! r) as [rc|] eqn:Hrc; [|done]. simpl in Hin, Hdono.
  destruct (liberar_recurso_agendado_efeito st p r me rc Hme Hrc Hin)
    as (Ed & Eh & Ew & Ec & Eq). fold st' in Ed, Eh, Ew, Ec, Eq.
  destruct (consistente_em st p me Hc Hme) as (_ & Hnd & _).
  assert (Hcond : ∀ w, w ∈ condicao rc → pc_de st' w = Acordado r).
  { intros w Hw. rewrite Ec, decide_True; [done|]. split; [done|].
    assert (pc_de st w = Esperando r) as Hpc.
    { apply (cons_espera st Hc). unfold condicao_de. by rewrite Hrc. }
    unfold pc_de in Hpc.
    destruct (processos st !! w) eqn:E; [by apply lookup_lt_Some in E|done]. }
  assert (Hpm : posse_de st p = recursos_posse me)
    by (unfold posse_de; by rewrite Hme).
  assert (Hp' : posse_de st' p = py_remove r (recursos_posse me))
    by (by rewrite Eh, decide_True).
  rewrite Hp', Hpm.
  split; [by rewrite Ed, decide_True|].
  split; [by apply py_remove_not_elem|].
  split; [done|].
  split; [intros w; unfold condicao_de; rewrite Hrc; apply Hcond|].
  split.
  { intros w Hw. rewrite (cons_aguardando st Hc) in Hw.
    destruct (pc_de st w) as [|r'|r'|r'] eqn:Hpc; simplify_eq/=.
    - apply Hcond. apply (cons_espera st Hc) in Hpc.
      unfold condicao_de in Hpc. by rewrite Hrc in Hpc.
    - rewrite Ec. by case_decide. }
  split; [by rewrite Eq, decide_True|].
  split; [intros x; by apply py_remove_elem|].
  split; [by apply py_remove_filter|].
  split.
  - intros q Hq. by rewrite Eh, decide_False.
  - intros r' Hr'. by rewrite Ed, decide_False.
Qed.

Lemma C5_liberacao_acorda_todos_witness :
  let st' := liberar_recurso_agendado cenario_dois_dormem 0 0 in
  dono_de st' 0 = None
  ∧ (0 ∉ posse_de st' 0)
  ∧ posse_de st' 0 = py_remove 0 (posse_de cenario_dois_dormem 0)
  ∧ (∀ w, w ∈ condicao_de cenario_dois_dormem 0 → pc_de st' w = Acordado 0)
  ∧ (∀ w, aguardando_de cenario_dois_dormem w = Some 0 → pc_de st' w = Acordado 0)
  ∧ condicao_de st' 0 = []
  ∧ (∀ x, x ∈ posse_de st' 0 ↔ x ∈ posse_de cenario_dois_dormem 0 ∧ x ≠ 0)
  ∧ posse_de st' 0 = filter (λ x, x ≠ 0) (posse_de cenario_dois_dormem 0)
  ∧ (∀ q, q ≠ 0 → posse_de st' q = posse_de cenario_dois_dormem q)
  ∧ (∀ r', r' ≠ 0 → dono_de st' r' = dono_de cenario_dois_dormem r').
Proof.
  apply (C5_liberacao_acorda_todos cenario_dois_dormem 0 0
           cenario_dois_dormem_alcancavel).
  vm_compute. left.
Defined.

(** C10. A release by a process that does not hold the resource changes
    nothing: the owner of the resource, every held list, every waiting
    pointer and every sleeping thread stay as they were. *)
Theorem C10_liberacao_sem_posse (st : Estado) (p r : nat) :
  r ∉ posse_de st p → liberar_recurso_agendado st p r = st.
Proof.
  unfold posse_de, liberar_recurso_agendado. intros Hn.
  destruct (processos st !! p) as [me|]; [|done].
  destruct (recursos st !! r) as [rc|]; [|done].
  by rewrite bool_decide_false.
Qed.

Lemma C10_liberacao_sem_posse_witness :
  liberar_recurso_agendado cenario_bloqueio 1 0 = cenario_bloqueio.
Proof.
  apply (C10_liberacao_sem_posse cenario_bloqueio 1 0).
  vm_compute. intros H. inversion H as [|? ? ? H']; inversion H'.
Defined.

(** ** No request for a held resource *)

(** C6. In every state of the simulation and for every process: the
    resource picked by the selection step is not in the held list of the
    process; when the process holds every resource the turn changes
    nothing; and the resource a process waits on (or is requesting) is
    never one it holds. *)
Theorem C6_nunca_pede_o_que_tem (st : Estado) (p : nat) :
  alcancavel st →
  (∀ k r, escolher st p k = Some r → r ∉ posse_de st p)
  ∧ ((∀ r, r < length (recursos st) → r ∈ posse_de st p) →
     ∀ k, escolher st p k = None ∧ run_tick st p k = st)
  ∧ (∀ r, aguardando_de st p = Some r → r ∉ posse_de st p)
  ∧ (∀ r, pedido (pc_de st p) = Some r → r ∉ posse_de st p).
Proof.
  intros Hc%alcancavel_consistente. split; [|split; [|split]].
  - intros k r Hr. by apply escolher_Some in Hr as [? _].
  - intros Hall k.
    assert (escolher st p k = None) as Hn.
    { destruct (escolher st p k) as [r|] eqn:Hr; [|done].
      apply escolher_Some in Hr as [Hr1 Hr2]. by apply Hall in Hr2. }
    split; [done|]. unfold run_tick. rewrite Hn. by destruct (processos st !! p).
  - intros r Hr. apply (cons_pedido st Hc).
    rewrite (cons_aguardando st Hc) in Hr. by destruct (pc_de st p).
  - apply (cons_pedido st Hc).
Qed.

Lemma C6_nunca_pede_o_que_tem_witness :
  (∀ k r, escolher cenario_deadlock 0 k = Some r → r ∉ posse_de cenario_deadlock 0)
  ∧ ((∀ r, r < length (recursos cenario_deadlock) → r ∈ posse_de cenario_deadlock 0) →
     ∀ k, escolher cenario_deadlock 0 k = None ∧ run_tick cenario_deadlock 0 k = cenario_deadlock)
  ∧ (∀ r, aguardando_de cenario_deadlock 0 = Some r → r ∉ posse_de cenario_deadlock 0)
  ∧ (∀ r, pedido (pc_de cenario_deadlock 0) = Some r → r ∉ posse_de cenario_deadlock 0).
Proof. exact (C6_nunca_pede_o_que_tem cenario_deadlock 0 cenario_deadlock_alcancavel). Defined.

(** ** The configuration screen *)

Lemma start_all_length (ps : list Processo) : length (start_all ps).1 = length ps.
Proof.
  induction ps as [|p ps IH]; simpl; [done|].
  destruct (started p); simpl; [done|].
  destruct (start_all ps) as [qs ok]; simpl in *. by rewrite IH.
Qed.

Lemma add_recurso_length (app : App.t) (nome : string) :
  length (App.recursos app) ≤ MAX_RECURSOS →
  length (App.recursos (App.add_recurso app nome).1) ≤ MAX_RECURSOS
  ∧ App.temp_process_configs (App.add_recurso app nome).1
    = App.temp_process_configs app.
Proof.
  intros Hle. unfold App.add_recurso.
  case_bool_decide; simpl; [done|]. case_bool_decide; simpl; [done|].
  split; [|done]. rewrite length_app. simpl. lia.
Qed.

Lemma add_processo_config_length (app : App.t) (ets etu : option Q) :
  length (App.temp_process_configs app) ≤ MAX_PROCESSOS →
  length (App.temp_process_configs (App.add_processo_config app ets etu).1)
    ≤ MAX_PROCESSOS
  ∧ App.recursos (App.add_processo_config app ets etu).1 = App.recursos app.
Proof.
  intros Hle. unfold App.add_processo_config.
  case_bool_decide; simpl; [done|].
  destruct ets as [ts|], etu as [tu|]; simpl; try done.
  split; [|done]. rewrite length_app. simpl. lia.
Qed.

Lemma start_simulation_listas (app : App.t) (edt : option Q) :
  App.recursos (App.start_simulation app edt).1 = App.recursos app
  ∧ App.temp_process_configs (App.start_simulation app edt).1
    = App.temp_process_configs app.
Proof.
  unfold App.start_simulation.
  destruct (_ || _); simpl; [done|]. destruct edt as [dt|]; simpl; [|done].
  by destruct (start_all _) as [ps' ok].
Qed.

Lemma apos_snoc (cs : list App.Comando) (c : App.Comando) :
  App.apos (cs ++ [c]) = (App.executar (App.apos cs) c).1.
Proof. unfold App.apos. by rewrite foldl_app. Qed.

Lemma apos_limites (cs : list App.Comando) :
  length (App.recursos (App.apos cs)) ≤ MAX_RECURSOS
  ∧ length (App.temp_process_configs (App.apos cs)) ≤ MAX_PROCESSOS.
Proof.
  induction cs as [|c cs [IHr IHp]] using rev_ind.
  - unfold MAX_RECURSOS, MAX_PROCESSOS. simpl. lia.
  - rewrite apos_snoc. destruct c as [nome|ets etu|edt]; simpl.
    + destruct (add_recurso_length (App.apos cs) nome IHr) as [? ->]. done.
    + destruct (add_processo_config_length (App.apos cs) ets etu IHp) as [? ->]. done.
    + destruct (start_simulation_listas (App.apos cs) edt) as [-> ->]. done.
Qed.

Lemma start_all_Forall (P : Processo → Prop) (ps : list Processo) :
  (∀ p, P p → P (set_started true p)) →
  Forall P ps → Forall P (start_all ps).1.
Proof.
  intros HP. induction 1 as [|p ps Hp Hps IH]; simpl; [constructor|].
  destruct (started p); simpl; [by constructor|].
  destruct (start_all ps) as [qs ok]; simpl in *. constructor; auto.
Qed.

(** Whatever was entered on the configuration screen, the store handed
    to the threads is an initial one. *)
Lemma apos_inicial (cs : list App.Comando) : estado_inicial (App.estado (App.apos cs)).
Proof.
  unfold estado_inicial. simpl. split; [|split; [|done]].
  - induction cs as [|c cs IH] using rev_ind; [constructor|].
    rewrite apos_snoc. destruct c as [nome|ets etu|edt]; simpl.
    + unfold App.add_recurso. by repeat (case_bool_decide; simpl).
    + unfold App.add_processo_config. case_bool_decide; simpl; [done|].
      by destruct ets, etu.
    + unfold App.start_simulation. destruct (_ || _); simpl; [done|].
      destruct edt as [dt|]; simpl; [|done].
      destruct (start_all _) as [ps' ok] eqn:E. simpl.
      change ps' with (ps', ok).1. rewrite <- E.
      apply start_all_Forall; [by intros p|].
      apply Forall_app. split; [done|]. apply Forall_fmap.
      by apply Forall_true.
  - induction cs as [|c cs IH] using rev_ind; [constructor|].
    rewrite apos_snoc. destruct c as [nome|ets etu|edt]; simpl.
    + unfold App.add_recurso. repeat (case_bool_decide; simpl); try done.
      apply Forall_app. split; [done|]. by repeat constructor.
    + unfold App.add_processo_config. case_bool_decide; simpl; [done|].
      by destruct ets, etu.
    + by destruct (start_simulation_listas (App.apos cs) edt) as [-> _].
Qed.

(** C8. Whatever was entered on the configuration screen, the resource
    list and the process list hold at most 10 entries; with 10 resources
    (10 processes) configured, one more [add_recurso]
    ([add_processo_config]) only shows the limit warning and leaves the
    application as it was, so it starts no thread. *)
Theorem C8_limite_de_dez (cs : list App.Comando) :
  let app := App.apos cs in
  length (App.recursos app) ≤ MAX_RECURSOS
  ∧ length (App.temp_process_configs app) ≤ MAX_PROCESSOS
  ∧ (length (App.recursos app) = MAX_RECURSOS →
     ∀ nome,
       App.add_recurso app nome
       = (app, App.showwarning "Limite" "Máximo de 10 recursos atingido.")
       ∧ App.tarefas (App.add_recurso app nome).1 = App.tarefas app)
  ∧ (length (App.temp_process_configs app) = MAX_PROCESSOS →
     ∀ ets etu,
       App.add_processo_config app ets etu
       = (app, App.showwarning "Limite" "Máximo de 10 processos atingido.")
       ∧ App.tarefas (App.add_processo_config app ets etu).1 = App.tarefas app).
Proof.
  intros app. destruct (apos_limites cs) as [Hr Hp]. fold app in Hr, Hp.
  repeat split; try done.
  - unfold App.add_recurso. rewrite bool_decide_true; [done|lia].
  - unfold App.add_recurso. rewrite bool_decide_true; [done|lia].
  - unfold App.add_processo_config. rewrite bool_decide_true; [done|lia].
  - unfold App.add_processo_config. rewrite bool_decide_true; [done|lia].
Qed.

Lemma C8_limite_de_dez_witness :
  let app := App.apos comandos_cheios in
  length (App.recursos app) = MAX_RECURSOS
  ∧ length (App.temp_process_configs app) = MAX_PROCESSOS
  ∧ App.add_recurso app "K"
    = (app, App.showwarning "Limite" "Máximo de 10 recursos atingido.")
  ∧ App.add_processo_config app (Some 1%Q) (Some 1%Q)
    = (app, App.showwarning "Limite" "Máximo de 10 processos atingido.").
Proof.
  intros app.
  assert (Hr : length (App.recursos app) = MAX_RECURSOS) by (vm_compute; reflexivity).
  assert (Hp : length (App.temp_process_configs app) = MAX_PROCESSOS)
    by (vm_compute; reflexivity).
  destruct (C8_limite_de_dez comandos_cheios) as (_ & _ & H1 & H2).
  split; [exact Hr|]. split; [exact Hp|]. split.
  - exact (proj1 (H1 Hr "K")).
  - exact (proj1 (H2 Hp (Some 1%Q) (Some 1%Q))).
Defined.

(** *** Non-positive intervals *)

(** The configuration screen takes a request interval of 0 and a hold
    duration of -1, and the simulation starts with them: both threads
    are started and no error is shown. *)
Lemma C7_intervalo_nao_positivo_aceito :
  App.add_processo_config (App.apos [App.AddRecurso "A"]) (Some 0%Q) (Some (-1)%Q)
    = (app_nao_positivo, App.Nada)
  ∧ config_invalida app_nao_positivo
  ∧ (App.start_simulation app_nao_positivo (Some 1%Q)).2 = App.Nada
  ∧ App.tarefas (App.start_simulation app_nao_positivo (Some 1%Q)).1 = 2
  ∧ ¬ recusada app_nao_positivo (Some 1%Q).
Proof.
  split; [reflexivity|]. split.
  { right. right. exists (App.mkConfig 1 0%Q (-1)%Q). split; [left|]. by left. }
  split; [reflexivity|]. split; [reflexivity|].
  intros [(t & m & H) _]. vm_compute in H. discriminate H.
Qed.

(** C7 (amended). An empty resource list or an empty process list makes
    [start_simulation] show an error and leave the application as it was:
    no thread is started.  The sign of a request interval or hold
    duration is not looked at: below the limit, [add_processo_config]
    takes any two numbers. *)
Theorem C7_listas_vazias_recusadas (app : App.t) :
  (∀ edt,
     App.recursos app = [] ∨ App.temp_process_configs app = [] →
     App.start_simulation app edt
       = (app, App.showerror "Erro" "Configure recursos e processos.")
     ∧ recusada app edt)
  ∧ (∀ ts tu,
       length (App.temp_process_configs app) < MAX_PROCESSOS →
       App.add_processo_config app (Some ts) (Some tu)
       = ({| App.recursos := App.recursos app;
             App.processos := App.processos app;
             App.so_thread := App.so_thread app;
             App.temp_process_configs :=
               App.temp_process_configs app
               ++ [App.mkConfig
                     (Z.of_nat (length (App.temp_process_configs app)) + 1) ts tu] |},
          App.Nada)).
Proof.
  split.
  - intros edt Hvazia.
    assert (App.start_simulation app edt
            = (app, App.showerror "Erro" "Configure recursos e processos.")) as E.
    { unfold App.start_simulation.
      destruct Hvazia as [-> | ->]; simpl; [done|].
      by rewrite orb_true_r. }
    split; [done|]. unfold recusada. rewrite E. simpl. split; [eauto|done].
  - intros ts tu Hlt. unfold App.add_processo_config.
    rewrite bool_decide_false; [done|lia].
Qed.

Lemma C7_listas_vazias_recusadas_witness :
  (App.start_simulation App.init (Some 1%Q)
     = (App.init, App.showerror "Erro" "Configure recursos e processos.")
   ∧ recusada App.init (Some 1%Q))
  ∧ App.add_processo_config App.init (Some (-1)%Q) (Some 0%Q)
    = ({| App.recursos := []; App.processos := []; App.so_thread := None;
          App.temp_process_configs := [App.mkConfig 1 (-1)%Q 0%Q] |}, App.Nada).
Proof.
  destruct (C7_listas_vazias_recusadas App.init) as [H1 H2]. split.
  - apply H1. by left.
  - apply (H2 (-1)%Q 0%Q). vm_compute. lia.
Defined.

(** * Further properties of the code *)

(** ** Effect of the request block and of the choice *)

Lemma solicitar_recurso_pegou_efeito (st : Estado) (p r : nat)
    (me : Processo) (rc : Recurso) :
  processos st !! p = Some me → recursos st !! r = Some rc → dono rc = None →
  let st' := (solicitar_recurso st p r).1 in
  (∀ r', dono_de st' r' = if decide (r' = r) then Some p else dono_de st r')
  ∧ (∀ q, posse_de st' q
          = if decide (q = p) then recursos_posse me ++ [r] else posse_de st q)
  ∧ (∀ q, aguardando_de st' q = if decide (q = p) then None else aguardando_de st q)
  ∧ (∀ q, pc_de st' q = if decide (q = p) then Ocioso else pc_de st q)
  ∧ (∀ r', condicao_de st' r' = condicao_de st r')
  ∧ timers st' = timers st ++ [(p, r)].
Proof.
  intros Hme Hrc Hd st'. subst st'. unfold solicitar_recurso.
  rewrite Hme, Hrc, Hd. proj_unfold. simpl. repeat split; intros.
  - by rewrite (proj_insert _ _ _ _ _ _ _ Hrc).
  - by rewrite (proj_insert _ _ _ _ _ _ _ Hme).
  - by rewrite (proj_insert _ _ _ _ _ _ _ Hme).
  - by rewrite (proj_insert _ _ _ _ _ _ _ Hme).
  - rewrite (proj_insert _ _ _ _ _ _ _ Hrc). case_decide; subst; [|done].
    by rewrite Hrc.
Qed.

Lemma solicitar_recurso_bloqueado_efeito (st : Estado) (p r d : nat)
    (me : Processo) (rc : Recurso) :
  processos st !! p = Some me → recursos st !! r = Some rc → dono rc = Some d →
  let st' := (solicitar_recurso st p r).1 in
  (∀ r', dono_de st' r' = dono_de st r')
  ∧ (∀ q, posse_de st' q = posse_de st q)
  ∧ (∀ q, aguardando_de st' q = if decide (q = p) then Some r else aguardando_de st q)
  ∧ (∀ q, pc_de st' q = if decide (q = p) then Esperando r else pc_de st q)
  ∧ (∀ r', condicao_de st' r'
           = if decide (r' = r) then condicao rc ++ [p] else condicao_de st r')
  ∧ timers st' = timers st.
Proof.
  intros Hme Hrc Hd st'. subst st'. unfold solicitar_recurso.
  rewrite Hme, Hrc, Hd. proj_unfold. simpl. repeat split; intros.
  - rewrite (proj_insert _ _ _ _ _ _ _ Hrc). case_decide; subst; [|done].
    by rewrite Hrc.
  - rewrite (proj_insert _ _ _ _ _ _ _ Hme). case_decide; subst; [|done].
    by rewrite Hme.
  - by rewrite (proj_insert _ _ _ _ _ _ _ Hme).
  - by rewrite (proj_insert _ _ _ _ _ _ _ Hme).
  - by rewrite (proj_insert _ _ _ _ _ _ _ Hrc).
Qed.

Lemma run_tick_efeito (st : Estado) (p k : nat) :
  let st' := run_tick st p k in
  (∀ r, dono_de st' r = dono_de st r)
  ∧ (∀ q, posse_de st' q = posse_de st q)
  ∧ (∀ q, aguardando_de st' q = aguardando_de st q)
  ∧ (∀ r, condicao_de st' r = condicao_de st r)
  ∧ timers st' = timers st
  ∧ recursos st' = recursos st.
Proof.
  intros st'. subst st'. unfold run_tick.
  destruct (processos st !! p) as [me|] eqn:Hme; [|done].
  destruct (escolher st p k) as [r|]; [|done].
  destruct (recursos st !! r) as [rc|]; [|done].
  proj_unfold. simpl. repeat split; intros;
    rewrite (proj_insert _ _ _ _ _ _ _ Hme); case_decide; subst; try done;
    by rewrite Hme.
Qed.

(** ** Timers and sleeping threads *)

Lemma delete_NoDup_elem {A : Type} (l : list A) (i : nat) (x : A) :
  NoDup l → l !! i = Some x →
  NoDup (delete i l) ∧ ∀ y, y ∈ delete i l ↔ y ∈ l ∧ y ≠ x.
Proof.
  intros Hnd Hi. rewrite delete_take_drop.
  rewrite <- (take_drop_middle l i x Hi) in Hnd.
  apply NoDup_app in Hnd as (H1 & H2 & H3). apply NoDup_cons in H3 as [H3 H4].
  split.
  - apply NoDup_app. split; [done|]. split; [|done].
    intros y Hy Hy'. apply (H2 y Hy). by right.
  - intros y. rewrite <- (take_drop_middle l i x Hi) at 3.
    rewrite !elem_of_app, elem_of_cons. split.
    + intros [Hy|Hy]; (split; [tauto|]); intros ->; [|done].
      apply (H2 x Hy). by left.
    + tauto.
Qed.

Lemma posse_de_valido (st : Estado) (p r : nat) :
  consistente st → r ∈ posse_de st p →
  ∃ me rc, processos st !! p = Some me ∧ recursos st !! r = Some rc
           ∧ r ∈ recursos_posse me ∧ dono rc = Some p.
Proof.
  intros Hc Hin. apply (cons_dono st Hc) in Hin as Hd.
  unfold posse_de in Hin. unfold dono_de in Hd.
  destruct (processos st !! p) as [me|]; [|by apply elem_of_nil in Hin].
  destruct (recursos st !! r) as [rc|]; [|done]. by exists me, rc.
Qed.

Lemma timers_ok_ext (st : Estado) (l : list string) :
  timers_ok st →
  timers_ok {| processos := processos st; recursos := recursos st;
               timers := timers st; log := l |}.
Proof. by intros [? ?]. Qed.

Lemma passo_timers_ok (st st' : Estado) :
  passo st st' → consistente st → timers_ok st → timers_ok st'.
Proof.
  intros Hpasso Hc [Hnd Ht].
  assert (Hsol : ∀ p r, timers_ok (solicitar_recurso st p r).1).
  { intros p r.
    destruct (processos st !! p) as [me|] eqn:Hme;
      [|by unfold solicitar_recurso; rewrite Hme].
    destruct (recursos st !! r) as [rc|] eqn:Hrc;
      [|by unfold solicitar_recurso; rewrite Hme, Hrc].
    destruct (dono rc) as [d|] eqn:Hd.
    - destruct (solicitar_recurso_bloqueado_efeito st p r d me rc Hme Hrc Hd)
        as (_ & Eh & _ & _ & _ & Et).
      split; [by rewrite Et|]. intros q r'. by rewrite Et, Eh.
    - destruct (solicitar_recurso_pegou_efeito st p r me rc Hme Hrc Hd)
        as (_ & Eh & _ & _ & _ & Et).
      assert (Hnr : r ∉ posse_de st p).
      { intros Hin%(cons_dono st Hc). unfold dono_de in Hin.
        rewrite Hrc in Hin. simpl in Hin. congruence. }
      split.
      + rewrite Et. apply NoDup_app. split; [done|]. split; [|apply NoDup_singleton].
        intros x Hx ->%list_elem_of_singleton. by apply Ht in Hx.
      + intros q r'. rewrite Et, Eh, elem_of_app, list_elem_of_singleton, Ht.
        assert (posse_de st p = recursos_posse me) as Hpm
          by (unfold posse_de; by rewrite Hme).
        case_decide; subst.
        * rewrite elem_of_app, list_elem_of_singleton, <- Hpm. naive_solver.
        * naive_solver. }
  destruct Hpasso as [st p k me Hme Hpc _ _ | st p r me Hme Hpc
                     | st p r me Hme Hpc | st i Hi]; [|done|done|].
  - destruct (run_tick_efeito st p k) as (_ & Eh & _ & _ & Et & _).
    split; [by rewrite Et|]. intros q r'. by rewrite Et, Eh.
  - unfold disparar_timer.
    destruct (timers st !! i) as [[p r]|] eqn:Ei; [|done].
    destruct (delete_NoDup_elem (timers st) i (p, r) Hnd Ei) as [Hnd' Hdel].
    assert (Hin : r ∈ posse_de st p).
    { apply Ht. by apply list_elem_of_lookup_2 in Ei. }
    destruct (posse_de_valido st p r Hc Hin) as (me & rc & Hme & Hrc & Hin' & _).
    set (st1 := {| processos := processos st; recursos := recursos st;
                   timers := delete i (timers st); log := log st |}).
    destruct (liberar_recurso_agendado_efeito st1 p r me rc Hme Hrc Hin')
      as (_ & Eh & _).
    assert (Et : timers (liberar_recurso_agendado st1 p r) = delete i (timers st)).
    { unfold liberar_recurso_agendado. simpl. rewrite Hme, Hrc.
      by rewrite bool_decide_true. }
    split; [by rewrite Et|]. intros q r'. rewrite Et, Eh, Hdel, Ht.
    change (posse_de st1 q) with (posse_de st q).
    case_decide; subst.
    + pose proof (cons_nodup st Hc p) as Hndp.
      assert (posse_de st p = recursos_posse me) as Hpm
        by (unfold posse_de; by rewrite Hme).
      rewrite Hpm in *. rewrite py_remove_elem by done. naive_solver.
    + naive_solver.
Qed.

Lemma passo_espera_ok (st st' : Estado) :
  passo st st' → consistente st → espera_ok st → espera_ok st'.
Proof.
  intros Hpasso Hc He.
  assert (Hsol : ∀ p r, espera_ok (solicitar_recurso st p r).1).
  { intros p r.
    destruct (processos st !! p) as [me|] eqn:Hme;
      [|by unfold solicitar_recurso; rewrite Hme].
    destruct (recursos st !! r) as [rc|] eqn:Hrc;
      [|by unfold solicitar_recurso; rewrite Hme, Hrc].
    destruct (dono rc) as [d|] eqn:Hd.
    - destruct (solicitar_recurso_bloqueado_efeito st p r d me rc Hme Hrc Hd)
        as (Ed & _ & _ & _ & Eq & _).
      intros q r'. rewrite Ed, Eq. case_decide; subst; [|apply He].
      intros _. unfold dono_de. rewrite Hrc. simpl. by rewrite Hd.
    - destruct (solicitar_recurso_pegou_efeito st p r me rc Hme Hrc Hd)
        as (Ed & _ & _ & _ & Eq & _).
      intros q r'. rewrite Ed, Eq. case_decide; [done|apply He]. }
  destruct Hpasso as [st p k me Hme Hpc _ _ | st p r me Hme Hpc
                     | st p r me Hme Hpc | st i Hi]; [|done|done|].
  - destruct (run_tick_efeito st p k) as (Ed & _ & _ & Eq & _).
    intros q r'. rewrite Ed, Eq. apply He.
  - unfold disparar_timer.
    destruct (timers st !! i) as [[p r]|] eqn:Ei; [|done].
    set (st1 := {| processos := processos st; recursos := recursos st;
                   timers := delete i (timers st); log := log st |}).
    destruct (processos st !! p) as [me|] eqn:Hme;
      [|by unfold liberar_recurso_agendado; simpl; rewrite Hme].
    destruct (recursos st !! r) as [rc|] eqn:Hrc;
      [|by unfold liberar_recurso_agendado; simpl; rewrite Hme, Hrc].
    destruct (decide (r ∈ recursos_posse me)) as [Hin|Hin];
      [|by unfold liberar_recurso_agendado; simpl;
           rewrite Hme, Hrc, bool_decide_false].
    destruct (liberar_recurso_agendado_efeito st1 p r me rc Hme Hrc Hin)
      as (Ed & _ & _ & _ & Eq).
    intros q r'. rewrite Ed, Eq. case_decide; [by intros ?%elem_of_nil|apply He].
Qed.

Lemma alcancavel_invariantes (st : Estado) :
  alcancavel st → consistente st ∧ timers_ok st ∧ espera_ok st.
Proof.
  intros (st0 & H0 & Hrtc).
  assert (consistente st0 ∧ timers_ok st0 ∧ espera_ok st0) as Hinv.
  { pose proof (estado_inicial_consistente st0 H0) as Hc.
    destruct H0 as (Hps & Hrs & Ht). split; [done|]. split.
    - split; [rewrite Ht; constructor|]. intros p r. rewrite Ht.
      unfold posse_de. destruct (processos st0 !! p) as [me|] eqn:Hme; simpl.
      + apply (Forall_lookup_1 _ _ _ _ Hps) in Hme as (-> & _).
        by rewrite !elem_of_nil.
      + by rewrite !elem_of_nil.
    - intros p r. unfold condicao_de.
      destruct (recursos st0 !! r) as [rc|] eqn:Hrc; simpl.
      + apply (Forall_lookup_1 _ _ _ _ Hrs) in Hrc as (_ & ->).
        by intros ?%elem_of_nil.
      + by intros ?%elem_of_nil. }
  clear H0. induction Hrtc as [|x y z Hxy _ IH]; [done|].
  destruct Hinv as (Hc & Ht & He). apply IH. split; [|split].
  - by apply (passo_consistente x y).
  - by apply (passo_timers_ok x y).
  - by apply (passo_espera_ok x y).
Qed.

(** ** Requests that block, and what waiting means *)

(** X1. A request for a resource that has an owner blocks: the process
    publishes the resource in [recurso_aguardando], goes to sleep at the
    end of the waiting list of that resource, and nothing else moves: no
    owner, no held list, no timer and no other process changes. *)
Theorem X1_pedido_bloqueado (st : Estado) (p r d : nat) (me : Processo) (rc : Recurso) :
  processos st !! p = Some me → recursos st !! r = Some rc → dono rc = Some d →
  let st' := (solicitar_recurso st p r).1 in
  (solicitar_recurso st p r).2 = Bloqueado
  ∧ aguardando_de st' p = Some r
  ∧ pc_de st' p = Esperando r
  ∧ condicao_de st' r = condicao rc ++ [p]
  ∧ (∀ r', dono_de st' r' = dono_de st r')
  ∧ (∀ q, posse_de st' q = posse_de st q)
  ∧ timers st' = timers st
  ∧ (∀ q, q ≠ p → processos st' !! q = processos st !! q)
  ∧ (∀ r', r' ≠ r → recursos st' !! r' = recursos st !! r').
Proof.
  intros Hme Hrc Hd st'.
  destruct (solicitar_recurso_bloqueado_efeito st p r d me rc Hme Hrc Hd)
    as (Ed & Eh & Ew & Ec & Eq & Et). fold st' in Ed, Eh, Ew, Ec, Eq, Et.
  split; [by unfold solicitar_recurso; rewrite Hme, Hrc, Hd|].
  rewrite Ew, Ec, Eq, !decide_True by done. do 6 (split; [done|]).
  subst st'. unfold solicitar_recurso. rewrite Hme, Hrc, Hd. simpl.
  split; intros ? ?; by rewrite list_lookup_insert_ne.
Qed.

Lemma X1_pedido_bloqueado_witness :
  let st' := (solicitar_recurso cenario_posse 1 0).1 in
  (solicitar_recurso cenario_posse 1 0).2 = Bloqueado
  ∧ aguardando_de st' 1 = Some 0
  ∧ pc_de st' 1 = Esperando 0
  ∧ condicao_de st' 0 = [] ++ [1]
  ∧ (∀ r', dono_de st' r' = dono_de cenario_posse r')
  ∧ (∀ q, posse_de st' q = posse_de cenario_posse q)
  ∧ timers st' = timers cenario_posse
  ∧ (∀ q, q ≠ 1 → processos st' !! q = processos cenario_posse !! q)
  ∧ (∀ r', r' ≠ 0 → recursos st' !! r' = recursos cenario_posse !! r').
Proof.
  exact (X1_pedido_bloqueado cenario_posse 1 0 0 (proc 2 [1] None Ocioso)
           (mkRecurso 1 "A" (Some 0) []) eq_refl eq_refl eq_refl).
Defined.

(** X2. In every state of the simulation, [recurso_aguardando] of a
    process is [r] exactly while its thread is inside the waiting loop for
    [r] (asleep or just woken), and the threads on the waiting list of [r]
    are exactly the ones asleep for [r]. *)
Theorem X2_espera_consistente (st : Estado) (p r : nat) :
  alcancavel st →
  (aguardando_de st p = Some r
   ↔ pc_de st p = Esperando r ∨ pc_de st p = Acordado r)
  ∧ (p ∈ condicao_de st r ↔ pc_de st p = Esperando r).
Proof.
  intros Hc%alcancavel_consistente. split.
  - rewrite (cons_aguardando st Hc). destruct (pc_de st p); simpl; naive_solver.
  - by rewrite (cons_espera st Hc).
Qed.

Lemma X2_espera_consistente_witness :
  (aguardando_de cenario_bloqueio 1 = Some 0
   ↔ pc_de cenario_bloqueio 1 = Esperando 0 ∨ pc_de cenario_bloqueio 1 = Acordado 0)
  ∧ (1 ∈ condicao_de cenario_bloqueio 0 ↔ pc_de cenario_bloqueio 1 = Esperando 0).
Proof. exact (X2_espera_consistente cenario_bloqueio 1 0 cenario_bloqueio_alcancavel). Defined.

(** X3. No missed wake-up: in every state of the simulation, a thread
    asleep on the waiting list of a resource sleeps on an owned resource,
    and the owner is another process. *)
Theorem X3_quem_dorme_espera_um_dono (st : Estado) (p r : nat) :
  alcancavel st → p ∈ condicao_de st r →
  ∃ q, dono_de st r = Some q ∧ q ≠ p.
Proof.
  intros (Hc & _ & He)%alcancavel_invariantes Hin.
  destruct (He p r Hin) as [q Hq]. exists q. split; [done|]. intros ->.
  apply (cons_espera st Hc) in Hin. apply (cons_dono st Hc) in Hq.
  apply (cons_pedido st Hc p r); [by rewrite Hin|done].
Qed.

Lemma X3_quem_dorme_espera_um_dono_witness :
  ∃ q, dono_de cenario_bloqueio 0 = Some q ∧ q ≠ 1.
Proof.
  apply (X3_quem_dorme_espera_um_dono cenario_bloqueio 1 0 cenario_bloqueio_alcancavel).
  vm_compute. left.
Defined.

(** ** Release timers *)





(** ** How requests and releases compose *)

(** X6. Of two requests for the same free resource the first is granted
    and the second blocks, whoever asks: after both the first process
    owns the resource and the second is on its waiting list. *)
Theorem X6_so_o_primeiro_pega (st : Estado) (p q r : nat)
    (me outro : Processo) (rc : Recurso) :
  processos st !! p = Some me → processos st !! q = Some outro →
  recursos st !! r = Some rc → dono rc = None →
  let st1 := (solicitar_recurso st p r).1 in
  let st2 := (solicitar_recurso st1 q r).1 in
  (solicitar_recurso st p r).2 = Pegou
  ∧ (solicitar_recurso st1 q r).2 = Bloqueado
  ∧ dono_de st2 r = Some p
  ∧ q ∈ condicao_de st2 r
  ∧ posse_de st2 p = recursos_posse me ++ [r]
  ∧ (q ≠ p → posse_de st2 q = recursos_posse outro).
Proof.
  intros Hme Hq Hrc Hd st1 st2.
  destruct (solicitar_recurso_pegou_efeito st p r me rc Hme Hrc Hd)
    as (Ed & Eh & _). fold st1 in Ed, Eh.
  assert (∃ outro1, processos st1 !! q = Some outro1) as [outro1 Hq1].
  { apply lookup_lt_is_Some. subst st1. unfold solicitar_recurso.
    rewrite Hme, Hrc, Hd. simpl. rewrite length_insert.
    by apply lookup_lt_Some in Hq. }
  assert (recursos st1 !! r = Some (set_dono (Some p) rc)) as Hrc1.
  { subst st1. unfold solicitar_recurso. rewrite Hme, Hrc, Hd. simpl.
    apply list_lookup_insert_eq. by apply lookup_lt_Some in Hrc. }
  destruct (solicitar_recurso_bloqueado_efeito st1 q r p outro1 _ Hq1 Hrc1 eq_refl)
    as (Ed2 & Eh2 & _ & _ & Eq2 & _). fold st2 in Ed2, Eh2, Eq2.
  split; [by unfold solicitar_recurso; rewrite Hme, Hrc, Hd|].
  split; [by unfold solicitar_recurso; rewrite Hq1, Hrc1|].
  rewrite Ed2, Ed, Eq2, !decide_True by done.
  split; [done|]. split; [apply elem_of_app; right; by left|].
  rewrite !Eh2, !Eh, decide_True by done. split; [done|].
  intros Hne. rewrite decide_False by done. unfold posse_de. by rewrite Hq.
Qed.

Lemma X6_so_o_primeiro_pega_witness :
  let st1 := (solicitar_recurso (App.estado app_AB) 0 0).1 in
  let st2 := (solicitar_recurso st1 1 0).1 in
  (solicitar_recurso (App.estado app_AB) 0 0).2 = Pegou
  ∧ (solicitar_recurso st1 1 0).2 = Bloqueado
  ∧ dono_de st2 0 = Some 0
  ∧ 1 ∈ condicao_de st2 0
  ∧ posse_de st2 0 = recursos_posse (proc 1 [] None Ocioso) ++ [0]
  ∧ (1 ≠ 0 → posse_de st2 1 = recursos_posse (proc 2 [] None Ocioso)).
Proof.
  exact (X6_so_o_primeiro_pega (App.estado app_AB) 0 1 0 (proc 1 [] None Ocioso)
           (proc 2 [] None Ocioso) (mkRecurso 1 "A" None [])
           eq_refl eq_refl eq_refl eq_refl).
Defined.

(** X7. In every state of the simulation, a grant of a free resource
    followed by the firing of the timer it armed gives the allocation
    back: the resource objects, the timers, every held list and every
    waiting pointer are as before the grant. *)
Theorem X7_pegar_e_liberar (st : Estado) (p r : nat) (me : Processo) :
  alcancavel st → processos st !! p = Some me → dono_de st r = None →
  r < length (recursos st) →
  let st1 := (solicitar_recurso st p r).1 in
  let st2 := disparar_timer st1 (length (timers st)) in
  (solicitar_recurso st p r).2 = Pegou
  ∧ recursos st2 = recursos st
  ∧ timers st2 = timers st
  ∧ (∀ q, posse_de st2 q = posse_de st q)
  ∧ (∀ q, aguardando_de st2 q
          = if decide (q = p) then None else aguardando_de st q).
Proof.
  intros (Hc & _ & He)%alcancavel_invariantes Hme Hd Hr st1 st2.
  apply lookup_lt_is_Some in Hr as [rc Hrc].
  unfold dono_de in Hd. rewrite Hrc in Hd. simpl in Hd.
  assert (Hcond : condicao rc = []).
  { destruct (condicao rc) as [|w ws] eqn:E; [done|]. exfalso.
    destruct (He w r) as [x Hx].
    - unfold condicao_de. rewrite Hrc. simpl. rewrite E. by left.
    - unfold dono_de in Hx. rewrite Hrc in Hx. simpl in Hx. congruence. }
  assert (Hnr : r ∉ recursos_posse me).
  { intros Hin. assert (dono_de st r = Some p) as Hx.
    { apply (cons_dono st Hc). unfold posse_de. by rewrite Hme. }
    unfold dono_de in Hx. rewrite Hrc in Hx. simpl in Hx. congruence. }
  split; [by unfold solicitar_recurso; rewrite Hme, Hrc, Hd|].
  subst st2 st1. unfold solicitar_recurso. rewrite Hme, Hrc, Hd. simpl.
  unfold disparar_timer. simpl.
  rewrite lookup_app_r, Nat.sub_diag by done. simpl.
  unfold liberar_recurso_agendado. simpl.
  rewrite list_lookup_insert_eq by (by apply lookup_lt_Some in Hme).
  rewrite list_lookup_insert_eq by (by apply lookup_lt_Some in Hrc). simpl.
  rewrite bool_decide_true by (apply elem_of_app; right; by left). simpl.
  assert (Hrem : py_remove r (recursos_posse me ++ [r]) = recursos_posse me).
  { clear -Hnr. induction (recursos_posse me) as [|y l IH]; simpl.
    - by rewrite decide_True.
    - apply not_elem_of_cons in Hnr as [? ?].
      rewrite decide_False by done. f_equal. by apply IH. }
  split; [|split; [|split]].
  - rewrite list_insert_insert_eq. apply list_insert_id. rewrite Hrc.
    f_equal. destruct rc as [i n d c]. simpl in *. by subst.
  - rewrite delete_take_drop, take_app_length.
    rewrite drop_ge by (rewrite length_app; simpl; lia). by rewrite app_nil_r.
  - intros q. unfold posse_de. simpl. rewrite Hcond. simpl.
    rewrite list_insert_insert_eq, (proj_insert _ _ _ _ _ _ _ Hme). simpl.
    rewrite Hrem. case_decide; subst; [|done]. by rewrite Hme.
  - intros q. unfold aguardando_de. simpl. rewrite Hcond. simpl.
    by rewrite list_insert_insert_eq, (proj_insert _ _ _ _ _ _ _ Hme).
Qed.

Lemma X7_pegar_e_liberar_witness :
  let st1 := (solicitar_recurso (App.estado app_AB) 0 0).1 in
  let st2 := disparar_timer st1 (length (timers (App.estado app_AB))) in
  (solicitar_recurso (App.estado app_AB) 0 0).2 = Pegou
  ∧ recursos st2 = recursos (App.estado app_AB)
  ∧ timers st2 = timers (App.estado app_AB)
  ∧ (∀ q, posse_de st2 q = posse_de (App.estado app_AB) q)
  ∧ (∀ q, aguardando_de st2 q
          = if decide (q = 0) then None else aguardando_de (App.estado app_AB) q).
Proof.
  apply (X7_pegar_e_liberar (App.estado app_AB) 0 0 (proc 1 [] None Ocioso)).
  - exists (App.estado app_AB). split; [apply app_AB_inicial | apply rtc_refl].
  - reflexivity.
  - reflexivity.
  - vm_compute. lia.
Defined.

(** ** What no step changes *)





(** ** The nodes of the snapshot *)

Lemma touch_node_presente (n : string) (G : nx.DiGraph) :
  n ∈ (nx.nodes G).*1 → nx.touch_node n G = G.
Proof. intros Hn%has_node_spec. unfold nx.touch_node. by rewrite Hn. Qed.

Lemma add_edge_nodes (u v : string) (G : nx.DiGraph) :
  u ∈ (nx.nodes G).*1 → v ∈ (nx.nodes G).*1 →
  nx.nodes (nx.add_edge u v G) = nx.nodes G.
Proof.
  intros Hu Hv. unfold nx.add_edge. simpl.
  rewrite (touch_node_presente u G Hu), (touch_node_presente v G Hv).
  by case_bool_decide.
Qed.

Lemma foldl_add_aresta_nodes {A : Type} (g : A → option (string * string))
    (l : list A) (G : nx.DiGraph) :
  (∀ x a b, x ∈ l → g x = Some (a, b) →
            a ∈ (nx.nodes G).*1 ∧ b ∈ (nx.nodes G).*1) →
  nx.nodes (foldl (λ G x, add_aresta G (g x)) G l) = nx.nodes G.
Proof.
  revert G. induction l as [|x l IH]; intros G Hg; simpl; [done|].
  assert (Hx : nx.nodes (add_aresta G (g x)) = nx.nodes G).
  { destruct (g x) as [[a b]|] eqn:E; simpl; [|done].
    destruct (Hg x a b) as [Ha Hb]; [by left|done|]. by apply add_edge_nodes. }
  rewrite IH, Hx; [done|]. intros y a b Hy E. rewrite Hx.
  apply (Hg y); [by right|done].
Qed.

Lemma construir_grafo_nodes (ps : list Processo) (rs : list Recurso) :
  nx.nodes (construir_grafo ps rs)
  = nx.nodes (grafo_nos_recursos rs (grafo_nos_processos ps nx.vazio)).
Proof.
  assert (H0 : ∀ m, m ∈ (nx.nodes (grafo_nos_recursos rs
                            (grafo_nos_processos ps nx.vazio))).*1
                ↔ (∃ p, p ∈ ps ∧ m = no_processo p) ∨ (∃ r, r ∈ rs ∧ m = no_recurso r)).
  { intros m. unfold grafo_nos_recursos, grafo_nos_processos.
    rewrite !foldl_add_node_nomes. simpl. rewrite elem_of_nil. tauto. }
  rewrite construir_grafo_add_aresta.
  set (G2 := grafo_nos_recursos rs _) in *.
  assert (H1 : nx.nodes (foldl (λ G r, add_aresta G (aresta_dono ps r)) G2 rs)
               = nx.nodes G2).
  { apply foldl_add_aresta_nodes.
    intros r a b Hr E. rewrite !H0. unfold aresta_dono in E.
    destruct (dono r) as [d|]; simpl in E; [|done].
    destruct (ps !! d) as [q|] eqn:Hq; simplify_eq/=.
    apply list_elem_of_lookup_2 in Hq. split; [right|left]; eauto. }
  rewrite foldl_add_aresta_nodes; [done|].
  intros p a b Hp E. rewrite !H1, !H0. unfold aresta_espera in E.
  destruct (recurso_aguardando p) as [w|]; simpl in E; [|done].
  destruct (rs !! w) as [r|] eqn:Hr; simplify_eq/=.
  apply list_elem_of_lookup_2 in Hr. split; [left|right]; eauto.
Qed.




(** ** The snapshot *)

Lemma prefix_no_processo (p : Processo) : String.prefix "P" (no_processo p) = true.
Proof. unfold no_processo. by destruct (pretty (p_id p)). Qed.

Lemma prefix_no_recurso (r : Recurso) : String.prefix "P" (no_recurso r) = false.
Proof. reflexivity. Qed.

Lemma add_node_attr (m t n : string) (a : option string) (G : nx.DiGraph) :
  (n, a) ∈ nx.nodes (nx.add_node m t G) →
  (n, a) ∈ nx.nodes G ∨ (n = m ∧ a = Some t).
Proof.
  unfold nx.add_node. destruct (nx.has_node G m); simpl.
  - intros ([n' a'] & Heq & Hin)%list_elem_of_fmap. simpl in Heq.
    case_decide; simplify_eq/=; auto.
  - rewrite elem_of_app, list_elem_of_singleton. intros [?|?]; simplify_eq/=; auto.
Qed.

Lemma foldl_add_node_attr {A : Type} (f : A → string) (t : string)
    (l : list A) (G : nx.DiGraph) (n : string) (a : option string) :
  (n, a) ∈ nx.nodes (foldl (λ G x, nx.add_node (f x) t G) G l) →
  (n, a) ∈ nx.nodes G ∨ ∃ x, x ∈ l ∧ n = f x ∧ a = Some t.
Proof.
  revert G. induction l as [|x l IH]; intros G; simpl; [by left|].
  intros [[?|[-> ->]]%add_node_attr|(y & Hy & ? & ?)]%IH; [by left| |].
  - right. exists x. split; [by left|done].
  - right. exists y. split; [by right|done].
Qed.

Lemma aresta_dono_Some (ps : list Processo) (r : Recurso) (u v : string) :
  aresta_dono ps r = Some (u, v)
  ↔ ∃ d q, dono r = Some d ∧ ps !! d = Some q
           ∧ u = no_recurso r ∧ v = no_processo q.
Proof.
  unfold aresta_dono. destruct (dono r) as [d|]; simpl.
  - destruct (ps !! d) as [q|] eqn:Hq; simpl.
    + split; [intros ?; simplify_eq; by exists d, q|].
      intros (d' & q' & ? & Hq' & -> & ->). by simplify_eq.
    + split; [done|]. intros (d' & q' & ? & Hq' & _). by simplify_eq.
  - split; [done|]. by intros (? & ? & ? & _).
Qed.

Lemma aresta_espera_Some (rs : list Recurso) (p : Processo) (u v : string) :
  aresta_espera rs p = Some (u, v)
  ↔ ∃ a r, recurso_aguardando p = Some a ∧ rs !! a = Some r
           ∧ u = no_processo p ∧ v = no_recurso r.
Proof.
  unfold aresta_espera. destruct (recurso_aguardando p) as [a|]; simpl.
  - destruct (rs !! a) as [r|] eqn:Hr; simpl.
    + split; [intros ?; simplify_eq; by exists a, r|].
      intros (a' & r' & ? & Hr' & -> & ->). by simplify_eq.
    + split; [done|]. intros (a' & r' & ? & Hr' & _). by simplify_eq.
  - split; [done|]. by intros (? & ? & ? & _).
Qed.

Lemma construir_grafo_tipos (ps : list Processo) (rs : list Recurso)
    (n : string) (a : option string) :
  (n, a) ∈ nx.nodes (construir_grafo ps rs) →
  a = Some (if String.prefix "P" n then "processo" else "recurso").
Proof.
  rewrite construir_grafo_nodes. unfold grafo_nos_recursos, grafo_nos_processos.
  intros [[Hn|(p & _ & -> & ->)]%foldl_add_node_attr
         |(r & _ & -> & ->)]%foldl_add_node_attr.
  - by apply elem_of_nil in Hn.
  - by rewrite prefix_no_processo.
  - by rewrite prefix_no_recurso.
Qed.

(** X9. The graph of a snapshot is the allocation graph of the store:
    its nodes are one [P<id>] per process, typed [processo], and one
    [R<id>] per resource, typed [recurso], none twice; its edges are
    exactly the edges from a resource to its owner and from a process to
    the resource it waits on, none twice. *)
Theorem X9_grafo_de_alocacao (so : Estado) :
  let G := graph (detectar_deadlock so) in
  (∀ u v, (u, v) ∈ nx.edges G
          ↔ (∃ r d q, r ∈ recursos so ∧ dono r = Some d
                      ∧ processos so !! d = Some q
                      ∧ u = no_recurso r ∧ v = no_processo q)
            ∨ (∃ p a r, p ∈ processos so ∧ recurso_aguardando p = Some a
                        ∧ recursos so !! a = Some r
                        ∧ u = no_processo p ∧ v = no_recurso r))
  ∧ (∀ n, n ∈ (nx.nodes G).*1
          ↔ (∃ p, p ∈ processos so ∧ n = no_processo p)
            ∨ (∃ r, r ∈ recursos so ∧ n = no_recurso r))
  ∧ (∀ n a, (n, a) ∈ nx.nodes G
            → a = Some (if String.prefix "P" n then "processo" else "recurso"))
  ∧ NoDup (nx.nodes G).*1
  ∧ NoDup (nx.edges G).
Proof.
  simpl. split; [|split; [|split]].
  - intros u v. pose proof (construir_grafo_arestas (processos so) (recursos so) u v) as H.
    unfold aresta in H. rewrite H. clear H. split.
    + intros [(r & Hr & (d & q & ?)%aresta_dono_Some)
             |(p & Hp & (a & r & ?)%aresta_espera_Some)]; [left|right]; naive_solver.
    + intros [(r & d & q & Hr & H)|(p & a & r & Hp & H)]; [left|right].
      * exists r. split; [done|]. apply aresta_dono_Some. naive_solver.
      * exists p. split; [done|]. apply aresta_espera_Some. naive_solver.
  - apply construir_grafo_nos.
  - apply construir_grafo_tipos.
  - destruct (construir_grafo_ok (processos so) (recursos so)) as [? ? _]. done.
Qed.

(** X10. The list of processes in deadlock holds, without repetition,
    exactly the nodes whose name starts with P that lie on one of the
    reported cycles. *)
Theorem X10_em_deadlock (so : Estado) (n : string) :
  NoDup (in_deadlock (detectar_deadlock so))
  ∧ (n ∈ in_deadlock (detectar_deadlock so)
     ↔ String.prefix "P" n = true
       ∧ ∃ c, c ∈ cycles (detectar_deadlock so) ∧ n ∈ c).
Proof.
  simpl. split; [apply NoDup_elements|].
  by rewrite elem_of_elements, coletar_processos_spec.
Qed.

Lemma circuito_saida (G : nx.DiGraph) (c : list string) (x : string) :
  circuito G c → x ∈ c → ∃ y, aresta G x y ∧ y ∈ c.
Proof.
  intros Hc Hx. destruct c as [|s c]; [done|]. destruct Hc as [_ Hp].
  apply list_elem_of_split in Hx as (c1 & c2 & Heq). rewrite Heq in Hp |- *.
  rewrite <- app_assoc in Hp. simpl in Hp.
  apply caminho_split in Hp as [_ Hp].
  assert (s ∈ c1 ++ x :: c2) as Hs by (rewrite <- Heq; by left).
  destruct c2 as [|y c2]; simpl in Hp; destruct Hp as [Hxy _].
  - by exists s.
  - exists y. split; [done|]. apply elem_of_app. right. right. by left.
Qed.

Lemma circuito_entrada (G : nx.DiGraph) (c : list string) (x : string) :
  circuito G c → x ∈ c → ∃ w, aresta G w x ∧ w ∈ c.
Proof.
  intros Hc Hx. destruct c as [|s c]; [done|]. destruct Hc as [_ Hp].
  apply list_elem_of_split in Hx as (c1 & c2 & Heq).
  destruct c1 as [|h c1 _] using rev_ind.
  - simpl in Heq. injection Heq as -> ->.
    destruct (last (x :: c2)) as [w|] eqn:Hw; [|by apply last_None in Hw].
    exists w. split.
    + by apply (caminho_last_edge G (x :: c2) [] w x).
    + apply last_Some in Hw as (l' & ->). apply elem_of_app. right. by left.
  - exists h. split.
    + rewrite Heq, <- !app_assoc in Hp. simpl in Hp.
      apply (caminho_last_edge G (c1 ++ [h]) (c2 ++ [s]) h x); [apply last_snoc|].
      by rewrite <- !app_assoc.
    + rewrite Heq, !elem_of_app, list_elem_of_singleton. auto.
Qed.


Lemma NoDup_fmap_elem_inj {A B : Type} (f : A → B) (l : list A) (x y : A) :
  NoDup (f <$> l) → x ∈ l → y ∈ l → f x = f y → x = y.
Proof.
  induction l as [|a l IH]; simpl; [by intros _ ?%elem_of_nil|].
  intros [Ha Hl]%NoDup_cons [->|Hx]%elem_of_cons [->|Hy]%elem_of_cons Hf; auto.
  - exfalso. apply Ha. rewrite Hf. by apply list_elem_of_fmap_2.
  - exfalso. apply Ha. rewrite <- Hf. by apply list_elem_of_fmap_2.
Qed.

Lemma no_processo_inj (p q : Processo) : no_processo p = no_processo q → p_id p = p_id q.
Proof.
  unfold no_processo. intros H%String.app_inj. by apply (inj pretty) in H.
Qed.

Lemma em_deadlock_arestas (so : Estado) (n : string) :
  n ∈ in_deadlock (detectar_deadlock so) →
  (∃ p a r, p ∈ processos so ∧ recurso_aguardando p = Some a
            ∧ recursos so !! a = Some r ∧ no_processo p = n)
  ∧ (∃ r d q, r ∈ recursos so ∧ dono r = Some d ∧ processos so !! d = Some q
              ∧ no_processo q = n).
Proof.
  simpl. intros (HP & c & Hc & Hn)%elem_of_elements%coletar_processos_spec.
  destruct (simple_cycles_spec _ (construir_grafo_ok (processos so) (recursos so)))
    as (Hs & _). apply Hs in Hc. split.
  - destruct (circuito_saida _ c n Hc Hn) as (y & Hy & _).
    apply construir_grafo_arestas in Hy
      as [(r & _ & (d & q & _ & _ & -> & _)%aresta_dono_Some)
         |(p & Hp & (a & r & Ha & Hr & -> & _)%aresta_espera_Some)].
    + by rewrite prefix_no_recurso in HP.
    + by exists p, a, r.
  - destruct (circuito_entrada _ c n Hc Hn) as (w & Hw & _).
    apply construir_grafo_arestas in Hw
      as [(r & Hr & (d & q & Hd & Hq & _ & ->)%aresta_dono_Some)
         |(p & _ & (a & r & _ & _ & _ & ->)%aresta_espera_Some)].
    + by exists r, d, q.
    + by rewrite prefix_no_recurso in HP.
Qed.

(** X11. No false positive: a node reported in deadlock is the node of a
    process that waits on a resource and of a process that owns a
    resource; when the identifiers of the processes are not repeated,
    every reported process itself waits on a resource, so a process that
    waits on nothing is never reported. *)
Theorem X11_em_deadlock_esta_bloqueado (so : Estado) (n : string) :
  n ∈ in_deadlock (detectar_deadlock so) →
  (∃ p a, p ∈ processos so ∧ no_processo p = n ∧ recurso_aguardando p = Some a)
  ∧ (∃ r d q, r ∈ recursos so ∧ dono r = Some d ∧ processos so !! d = Some q
              ∧ no_processo q = n)
  ∧ (NoDup (p_id <$> processos so) →
     ∀ p, p ∈ processos so → no_processo p = n → is_Some (recurso_aguardando p)).
Proof.
  intros [(p & a & r & Hp & Ha & _ & Hn) Hdono]%em_deadlock_arestas.
  split; [by exists p, a|]. split; [done|].
  intros Hnd p' Hp' Hn'.
  assert (p' = p) as ->; [|by rewrite Ha].
  apply (NoDup_fmap_elem_inj p_id (processos so)); try done.
  apply no_processo_inj. congruence.
Qed.

Lemma X11_em_deadlock_esta_bloqueado_witness :
  (∃ p a, p ∈ processos cenario_deadlock ∧ no_processo p = "P1"
          ∧ recurso_aguardando p = Some a)
  ∧ (∃ r d q, r ∈ recursos cenario_deadlock ∧ dono r = Some d
              ∧ processos cenario_deadlock !! d = Some q ∧ no_processo q = "P1")
  ∧ (NoDup (p_id <$> processos cenario_deadlock) →
     ∀ p, p ∈ processos cenario_deadlock → no_processo p = "P1"
          → is_Some (recurso_aguardando p)).
Proof.
  apply (X11_em_deadlock_esta_bloqueado cenario_deadlock "P1").
  vm_compute. left.
Defined.

Lemma ciclos_e_processos (so : Estado) :
  cycles (detectar_deadlock so) ≠ [] ↔ in_deadlock (detectar_deadlock so) ≠ [].
Proof.
  split.
  - intros Hc. destruct (cycles (detectar_deadlock so)) as [|c cs] eqn:E; [done|].
    assert (c ∈ cycles (detectar_deadlock so)) as Hin by (rewrite E; by left).
    clear Hc E.
    assert (∃ n, n ∈ c ∧ String.prefix "P" n = true) as (n & Hn & HP).
    { simpl in Hin.
      destruct (simple_cycles_spec _ (construir_grafo_ok (processos so) (recursos so)))
        as (Hs & _). apply Hs in Hin as Hcirc.
      destruct c as [|s c']; [done|].
      destruct (circuito_saida _ (s :: c') s Hcirc) as (y & Hy & Hyc); [by left|].
      apply construir_grafo_arestas in Hy
        as [(r & _ & (d & q & _ & _ & _ & ->)%aresta_dono_Some)
           |(p & _ & (a & r & _ & _ & -> & _)%aresta_espera_Some)].
      - exists (no_processo q). split; [done|apply prefix_no_processo].
      - exists (no_processo p). split; [by left|apply prefix_no_processo]. }
    assert (n ∈ in_deadlock (detectar_deadlock so)) as Hd.
    { simpl. apply elem_of_elements, coletar_processos_spec. split; [done|].
      by exists c. }
    intros Heq. rewrite Heq in Hd. by apply elem_of_nil in Hd.
  - intros Hd. destruct (in_deadlock (detectar_deadlock so)) as [|n l] eqn:E; [done|].
    assert (n ∈ in_deadlock (detectar_deadlock so)) as Hn by (rewrite E; by left).
    simpl in Hn. apply elem_of_elements, coletar_processos_spec in Hn
      as (_ & c & Hc & _).
    simpl. intros Heq. rewrite Heq in Hc. by apply elem_of_nil in Hc.
Qed.

(** X12. A snapshot reports a cycle exactly when it reports a process in
    deadlock: every cycle of the allocation graph passes through a
    process. *)
Theorem X12_ciclo_tem_processo (so : Estado) :
  cycles (detectar_deadlock so) ≠ [] ↔ in_deadlock (detectar_deadlock so) ≠ [].
Proof. apply ciclos_e_processos. Qed.

(** ** What the simulation screen shows *)

Lemma em_algum_ciclo_spec (cs : list (list string)) (n : string) :
  em_algum_ciclo cs n = true ↔ ∃ c, c ∈ cs ∧ n ∈ c.
Proof.
  unfold em_algum_ciclo. rewrite existsb_exists. split.
  - intros (c & Hc%list_elem_of_In & Hn%bool_decide_eq_true). eauto.
  - intros (c & Hc & Hn). exists c. split; [by apply list_elem_of_In|].
    by apply bool_decide_eq_true.
Qed.

(** X13. On a snapshot of the detector a node is drawn red exactly when
    it lies on a reported cycle (the test on the list of processes in
    deadlock adds nothing); the other nodes are sky blue when they are
    processes and light green when they are resources. *)
Theorem X13_cores_dos_nos (so : Estado) :
  let data := detectar_deadlock so in
  color_map data
  = map (λ na,
      if em_algum_ciclo (cycles data) na.1 then "red"
      else if String.prefix "P" na.1 then "skyblue" else "lightgreen")
      (nx.nodes (graph data)).
Proof.
  intros data. unfold color_map. apply map_ext_in. intros [n a] Hin%list_elem_of_In.
  cbn [fst snd].
  assert (bool_decide (n ∈ in_deadlock data) = true
          → em_algum_ciclo (cycles data) n = true) as Hsub.
  { intros Hn%bool_decide_eq_true. subst data. simpl in Hn.
    apply elem_of_elements, coletar_processos_spec in Hn as (_ & c & Hc & Hnc).
    apply em_algum_ciclo_spec. by exists c. }
  destruct (em_algum_ciclo (cycles data) n); [by rewrite orb_true_r|].
  destruct (bool_decide (n ∈ in_deadlock data)) eqn:E;
    [specialize (Hsub eq_refl); discriminate Hsub|].
  cbn [orb]. apply (construir_grafo_tipos (processos so) (recursos so)) in Hin as ->.
  destruct (String.prefix "P" n); reflexivity.
Qed.

(** X14. When the store is the one the snapshot was taken from and no
    identifier is repeated: the banner shows SISTEMA NORMAL exactly when
    no process is listed in deadlock, every process marked [DEADLOCK] is
    shown as BLOQUEADO, and a process shown as RODANDO is never marked. *)
Theorem X14_faixa_e_marcas (so : Estado) :
  NoDup (p_id <$> processos so) →
  let data := detectar_deadlock so in
  (lbl_deadlock data = ("SISTEMA NORMAL", "green") ↔ in_deadlock data = [])
  ∧ (∀ p, p ∈ processos so →
          deadlock_mark data p = " [DEADLOCK]" → state p = "BLOQUEADO")
  ∧ (∀ p, p ∈ processos so → state p = "RODANDO" → deadlock_mark data p = "").
Proof.
  intros Hnd data.
  assert (Hmark : ∀ p, p ∈ processos so → no_processo p ∈ in_deadlock data →
                       is_Some (recurso_aguardando p)).
  { intros p Hp [(p' & a & r & Hp' & Ha & _ & Hn) _]%em_deadlock_arestas.
    assert (p = p') as ->; [|by rewrite Ha].
    apply (NoDup_fmap_elem_inj p_id (processos so)); try done.
    apply no_processo_inj. congruence. }
  split; [|split].
  - pose proof (ciclos_e_processos so) as Hce. fold data in Hce.
    unfold lbl_deadlock. destruct (cycles data) as [|c cs].
    + split; [intros _|done].
      destruct (in_deadlock data) as [|n l]; [done|]. exfalso.
      by apply (proj2 Hce).
    + split; [by intros [= _ ?]|]. intros Hin. exfalso.
      by apply (proj1 Hce).
  - intros p Hp. unfold deadlock_mark, state. case_bool_decide as Hin; [|done].
    intros _. by destruct (Hmark p Hp Hin) as [a ->].
  - intros p Hp. unfold deadlock_mark, state. case_bool_decide as Hin; [|done].
    by destruct (Hmark p Hp Hin) as [a ->].
Qed.

Lemma X14_faixa_e_marcas_witness :
  let data := detectar_deadlock cenario_deadlock in
  (lbl_deadlock data = ("SISTEMA NORMAL", "green") ↔ in_deadlock data = [])
  ∧ (∀ p, p ∈ processos cenario_deadlock →
          deadlock_mark data p = " [DEADLOCK]" → state p = "BLOQUEADO")
  ∧ (∀ p, p ∈ processos cenario_deadlock →
          state p = "RODANDO" → deadlock_mark data p = "").
Proof.
  apply (X14_faixa_e_marcas cenario_deadlock).
  vm_compute. repeat constructor; intros H; inversion H as [|? ? ? H']; inversion H'.
Defined.

(** ** More on the configuration screen *)




(** X16. Validation comes before any change: whenever a command of the
    configuration screen ends in a warning or an error box, the
    application is left exactly as it was. *)
Theorem X16_aviso_sem_efeito (app : App.t) (c : App.Comando) (titulo mensagem : string) :
  (App.executar app c).2 = App.showwarning titulo mensagem
  ∨ (App.executar app c).2 = App.showerror titulo mensagem →
  (App.executar app c).1 = app.
Proof.
  destruct c as [nome|ets etu|edt]; simpl.
  - unfold App.add_recurso. repeat (case_bool_decide; simpl); try done.
    by intros [?|?].
  - unfold App.add_processo_config. case_bool_decide; simpl; [done|].
    destruct ets, etu; simpl; try done. by intros [?|?].
  - unfold App.start_simulation. destruct (_ || _); simpl; [done|].
    destruct edt; simpl; [|done]. destruct (start_all _) as [ps' []]; simpl;
      by intros [?|?].
Qed.

Lemma X16_aviso_sem_efeito_witness :
  (App.executar App.init (App.Start (Some 1%Q))).1 = App.init.
Proof.
  apply (X16_aviso_sem_efeito App.init (App.Start (Some 1%Q))
           "Erro" "Configure recursos e processos.").
  right. reflexivity.
Defined.

Lemma filter_todos {A : Type} (P : A → Prop) `{∀ x, Decision (P x)} (l : list A) :
  Forall P l → filter P l = l.
Proof.
  induction 1 as [|x l Hx Hl IH]; [done|].
  by rewrite filter_cons_True, IH.
Qed.

Lemma start_all_novos (ps : list Processo) :
  Forall (λ p, started p = false) ps →
  start_all ps = (set_started true <$> ps, true).
Proof.
  induction 1 as [|p ps Hp Hps IH]; simpl; [done|]. by rewrite Hp, IH.
Qed.

(** X17. The first start: with at least one resource and one configured
    process, no process created yet and a numeric detector interval,
    [start_simulation] shows nothing, creates one [Processo] per
    configured entry, in order and with its identifier and intervals,
    starts all of them and the detector, and hands over an initial
    store. *)
Theorem X17_primeiro_inicio (app : App.t) (dt : Q) :
  App.recursos app ≠ [] → App.temp_process_configs app ≠ [] →
  App.processos app = [] →
  let app' := (App.start_simulation app (Some dt)).1 in
  (App.start_simulation app (Some dt)).2 = App.Nada
  ∧ App.processos app'
    = (λ c, set_started true (Processo_init (App.id c) (App.ts c) (App.tu c)))
        <$> App.temp_process_configs app
  ∧ App.so_thread app' = Some (App.mkSO dt true)
  ∧ App.recursos app' = App.recursos app
  ∧ App.temp_process_configs app' = App.temp_process_configs app
  ∧ App.tarefas app' = length (App.temp_process_configs app) + 1.
Proof.
  intros Hr Hc Hp app'. subst app'. unfold App.start_simulation.
  rewrite !bool_decide_false by done. simpl. rewrite Hp. simpl.
  rewrite start_all_novos by (apply Forall_fmap; by apply Forall_true).
  simpl. change (map ?f ?l) with (f <$> l). rewrite <- list_fmap_compose.
  do 5 (split; [done|]). unfold App.tarefas. simpl.
  rewrite filter_todos; [by rewrite length_fmap|].
  apply Forall_fmap. by apply Forall_true.
Qed.

Lemma X17_primeiro_inicio_witness :
  let app := App.apos [App.AddRecurso "A"; App.AddProcesso (Some 0.5%Q) (Some 50%Q)] in
  let app' := (App.start_simulation app (Some 1%Q)).1 in
  (App.start_simulation app (Some 1%Q)).2 = App.Nada
  ∧ App.processos app'
    = (λ c, set_started true (Processo_init (App.id c) (App.ts c) (App.tu c)))
        <$> App.temp_process_configs app
  ∧ App.so_thread app' = Some (App.mkSO 1%Q true)
  ∧ App.recursos app' = App.recursos app
  ∧ App.temp_process_configs app' = App.temp_process_configs app
  ∧ App.tarefas app' = length (App.temp_process_configs app) + 1.
Proof.
  apply (X17_primeiro_inicio
           (App.apos [App.AddRecurso "A"; App.AddProcesso (Some 0.5%Q) (Some 50%Q)])
           1%Q); vm_compute; discriminate || reflexivity.
Defined.

Lemma apos_iniciado (cs : list App.Comando) :
  App.processos (App.apos cs) = []
  ∨ (App.recursos (App.apos cs) ≠ [] ∧ App.temp_process_configs (App.apos cs) ≠ []
     ∧ ∃ p ps, App.processos (App.apos cs) = p :: ps ∧ started p = true).
Proof.
  induction cs as [|c cs IH] using rev_ind; [by left|].
  rewrite apos_snoc. destruct c as [nome|ets etu|edt]; simpl.
  - unfold App.add_recurso. repeat (case_bool_decide; simpl); try done.
    destruct IH as [?|(Hr & Hc & Hp)]; [by left|right].
    split; [|done]. by destruct (App.recursos (App.apos cs)).
  - unfold App.add_processo_config. case_bool_decide; simpl; [done|].
    destruct ets, etu; simpl; try done.
    destruct IH as [?|(Hr & Hc & Hp)]; [by left|right].
    split; [done|]. split; [|done]. by destruct (App.temp_process_configs (App.apos cs)).
  - unfold App.start_simulation.
    destruct (bool_decide (App.recursos (App.apos cs) = [])) eqn:Er; simpl; [done|].
    destruct (bool_decide (App.temp_process_configs (App.apos cs) = [])) eqn:Ec;
      simpl; [done|].
    apply bool_decide_eq_false in Er, Ec.
    destruct edt as [dt|]; simpl; [|done].
    destruct (start_all _) as [ps' ok] eqn:E. simpl. right.
    split; [done|]. split; [done|].
    destruct IH as [Hp|(_ & _ & p & ps & Hp & Hs)]; rewrite Hp in E.
    + simpl in E. destruct (App.temp_process_configs (App.apos cs)) as [|c l]; [done|].
      simpl in E. destruct (start_all _) as [qs ok'] in E. simplify_eq. eauto.
    + simpl in E. rewrite Hs in E. simplify_eq. eauto.
Qed.

(** X18. Start pressed again: once processes exist, another
    [start_simulation] with a numeric interval ends in the
    [RuntimeError] of [Thread.start] at the first process, so it starts
    no thread; yet it has already appended one new, unstarted [Processo]
    per configured entry and replaced [so_thread] by a detector that is
    not started. *)
Theorem X18_segundo_inicio (cs : list App.Comando) (dt : Q) :
  App.processos (App.apos cs) ≠ [] →
  let app := App.apos cs in
  App.start_simulation app (Some dt)
  = ({| App.recursos := App.recursos app;
        App.processos :=
          App.processos app
          ++ ((λ c, Processo_init (App.id c) (App.ts c) (App.tu c))
                <$> App.temp_process_configs app);
        App.so_thread := Some (App.mkSO dt false);
        App.temp_process_configs := App.temp_process_configs app |},
     App.RuntimeError).
Proof.
  intros Hne app. destruct (apos_iniciado cs) as [?|(Hr & Hc & p & ps & Hp & Hs)];
    [done|]. fold app in Hr, Hc, Hp.
  unfold App.start_simulation. rewrite !bool_decide_false by done. simpl.
  rewrite Hp. simpl. by rewrite Hs.
Qed.

Lemma X18_segundo_inicio_witness :
  let app := App.apos [App.AddRecurso "A"; App.AddProcesso (Some 0.5%Q) (Some 50%Q);
                       App.Start (Some 1%Q)] in
  App.start_simulation app (Some 2%Q)
  = ({| App.recursos := App.recursos app;
        App.processos :=
          App.processos app
          ++ ((λ c, Processo_init (App.id c) (App.ts c) (App.tu c))
                <$> App.temp_process_configs app);
        App.so_thread := Some (App.mkSO 2%Q false);
        App.temp_process_configs := App.temp_process_configs app |},
     App.RuntimeError).
Proof.
  apply (X18_segundo_inicio
           [App.AddRecurso "A"; App.AddProcesso (Some 0.5%Q) (Some 50%Q);
            App.Start (Some 1%Q)] 2%Q).
  vm_compute. discriminate.
Defined.

(** ** No false negative, no preemption *)

Lemma circuito_em_deadlock (so : Estado) (c : list string) (n : string) :
  circuito (graph (detectar_deadlock so)) c → n ∈ c →
  String.prefix "P" n = true → n ∈ in_deadlock (detectar_deadlock so).
Proof.
  simpl. intros Hc Hn HP.
  destruct (simple_cycles_spec _ (construir_grafo_ok (processos so) (recursos so)))
    as (_ & Hcomp & _).
  destruct (Hcomp c Hc) as (c' & Hrot & Hc').
  apply elem_of_elements, coletar_processos_spec. split; [done|].
  exists c'. split; [done|]. by apply (rotacao_elem c c').
Qed.

(** X19. No false negative: every process node that lies on an
    elementary circuit of the allocation graph is in the list of
    processes in deadlock, and the snapshot then reports a cycle. *)
Theorem X19_todo_circuito_e_reportado (so : Estado) (c : list string) (n : string) :
  circuito (graph (detectar_deadlock so)) c → n ∈ c →
  String.prefix "P" n = true →
  n ∈ in_deadlock (detectar_deadlock so) ∧ cycles (detectar_deadlock so) ≠ [].
Proof.
  intros Hc Hn HP. pose proof (circuito_em_deadlock so c n Hc Hn HP) as Hd.
  split; [done|]. apply ciclos_e_processos. intros Heq. rewrite Heq in Hd.
  by apply elem_of_nil in Hd.
Qed.

Lemma X19_todo_circuito_e_reportado_witness :
  "P2" ∈ in_deadlock (detectar_deadlock cenario_deadlock)
  ∧ cycles (detectar_deadlock cenario_deadlock) ≠ [].
Proof.
  apply (X19_todo_circuito_e_reportado cenario_deadlock ["P2"; "R1"; "P1"; "R2"] "P2").
  - vm_compute. split.
    + repeat constructor; intros H; repeat (inversion H as [|? ? ? H']; clear H;
        rename H' into H); inversion H.
    + repeat split; repeat first [by left | right].
  - by left.
  - reflexivity.
Defined.

(** X20. Two processes that each wait on a resource owned by the other
    are both reported in deadlock, whatever else the store holds,
    provided the two processes and the two resources do not share
    identifiers. *)
Theorem X20_espera_cruzada (so : Estado) (ip iq ir js : nat)
    (p q : Processo) (r s : Recurso) :
  processos so !! ip = Some p → processos so !! iq = Some q →
  recursos so !! ir = Some r → recursos so !! js = Some s →
  dono r = Some ip → recurso_aguardando q = Some ir →
  dono s = Some iq → recurso_aguardando p = Some js →
  p_id p ≠ p_id q → r_id r ≠ r_id s →
  no_processo p ∈ in_deadlock (detectar_deadlock so)
  ∧ no_processo q ∈ in_deadlock (detectar_deadlock so).
Proof.
  intros Hp Hq Hr Hs Hdr Hwq Hds Hwp Hpq Hrs.
  set (c := [no_processo p; no_recurso s; no_processo q; no_recurso r]).
  assert (Hpr : ∀ (x : Processo) (y : Recurso), no_processo x ≠ no_recurso y).
  { intros x y Heq. pose proof (prefix_no_processo x) as H1.
    rewrite Heq, prefix_no_recurso in H1. discriminate H1. }
  assert (Hc : circuito (graph (detectar_deadlock so)) c).
  { split.
    - repeat (apply NoDup_cons; split); try apply NoDup_nil_2;
        rewrite ?not_elem_of_cons; repeat split;
        try apply not_elem_of_nil; try apply Hpr;
        try (intros Heq; by apply (Hpr _ _ (eq_sym Heq))).
      + intros Heq%no_processo_inj. done.
      + unfold no_recurso. intros Heq%String.app_inj. by apply (inj pretty) in Heq.
    - simpl. unfold aresta.
      pose proof (construir_grafo_arestas (processos so) (recursos so)) as HA.
      unfold aresta in HA. rewrite !HA. repeat split.
      + right. exists p. split; [by apply list_elem_of_lookup_2 in Hp|].
        apply aresta_espera_Some. by exists js, s.
      + left. exists s. split; [by apply list_elem_of_lookup_2 in Hs|].
        apply aresta_dono_Some. by exists iq, q.
      + right. exists q. split; [by apply list_elem_of_lookup_2 in Hq|].
        apply aresta_espera_Some. by exists ir, r.
      + left. exists r. split; [by apply list_elem_of_lookup_2 in Hr|].
        apply aresta_dono_Some. by exists ip, p. }
  split; apply (circuito_em_deadlock so c); try done; try apply prefix_no_processo.
  - by left.
  - do 2 right. by left.
Qed.

Lemma X20_espera_cruzada_witness :
  no_processo (proc 1 [0] (Some 1) (Esperando 1))
    ∈ in_deadlock (detectar_deadlock cenario_deadlock)
  ∧ no_processo (proc 2 [1] (Some 0) (Esperando 0))
    ∈ in_deadlock (detectar_deadlock cenario_deadlock).
Proof.
  apply (X20_espera_cruzada cenario_deadlock 0 1 0 1 _ _
           (mkRecurso 1 "A" (Some 0) [1]) (mkRecurso 2 "B" (Some 1) [0]));
    try reflexivity; vm_compute; discriminate.
Defined.

(** X21. No preemption: in every state of the simulation, a step never
    gives an owned resource to another process; the resource keeps its
    owner, or the owner's own timer fired and it is free. *)
Theorem X21_sem_preempcao (st st' : Estado) (r q : nat) :
  alcancavel st → passo st st' → dono_de st r = Some q →
  dono_de st' r = Some q
  ∨ (dono_de st' r = None ∧ (q, r) ∈ timers st ∧ (q, r) ∉ timers st').
Proof.
  intros (Hc & [Hnd Ht] & _)%alcancavel_invariantes Hpasso Hd.
  assert (Hsol : ∀ p r', dono_de (solicitar_recurso st p r').1 r = Some q).
  { intros p r'.
    destruct (processos st !! p) as [me|] eqn:Hme;
      [|by unfold solicitar_recurso; rewrite Hme].
    destruct (recursos st !! r') as [rc|] eqn:Hrc;
      [|by unfold solicitar_recurso; rewrite Hme, Hrc].
    destruct (dono rc) as [d|] eqn:Hdr.
    - destruct (solicitar_recurso_bloqueado_efeito st p r' d me rc Hme Hrc Hdr)
        as (Ed & _). by rewrite Ed.
    - destruct (solicitar_recurso_pegou_efeito st p r' me rc Hme Hrc Hdr)
        as (Ed & _). rewrite Ed. case_decide; subst; [|done].
      unfold dono_de in Hd. rewrite Hrc in Hd. simpl in Hd. congruence. }
  destruct Hpasso as [st p k me Hme Hpc _ _ | st p r' me Hme Hpc
                     | st p r' me Hme Hpc | st i Hi]; [|by left|by left|].
  - left. destruct (run_tick_efeito st p k) as (Ed & _). by rewrite Ed.
  - unfold disparar_timer.
    destruct (timers st !! i) as [[p r']|] eqn:Ei; [|by left].
    destruct (delete_NoDup_elem (timers st) i (p, r') Hnd Ei) as [_ Hdel].
    assert (Hin : r' ∈ posse_de st p).
    { apply Ht. by apply list_elem_of_lookup_2 in Ei. }
    destruct (posse_de_valido st p r' Hc Hin) as (me & rc & Hme & Hrc & Hin' & Hdp).
    set (st1 := {| processos := processos st; recursos := recursos st;
                   timers := delete i (timers st); log := log st |}).
    destruct (liberar_recurso_agendado_efeito st1 p r' me rc Hme Hrc Hin')
      as (Ed & _).
    assert (Et : timers (liberar_recurso_agendado st1 p r') = delete i (timers st)).
    { unfold liberar_recurso_agendado. simpl. rewrite Hme, Hrc.
      by rewrite bool_decide_true. }
    rewrite Ed, Et. case_decide; subst; [right|by left].
    assert (p = q) as ->.
    { unfold dono_de in Hd. rewrite Hrc in Hd. simpl in Hd. congruence. }
    split; [done|]. split; [by apply list_elem_of_lookup_2 in Ei|].
    rewrite Hdel. tauto.
Qed.

Lemma X21_sem_preempcao_witness :
  dono_de (disparar_timer cenario_deadlock 0) 0 = Some 0
  ∨ (dono_de (disparar_timer cenario_deadlock 0) 0 = None
     ∧ (0, 0) ∈ timers cenario_deadlock
     ∧ (0, 0) ∉ timers (disparar_timer cenario_deadlock 0)).
Proof.
  apply (X21_sem_preempcao cenario_deadlock (disparar_timer cenario_deadlock 0) 0 0
           cenario_deadlock_alcancavel).
  - apply passo_timer. vm_compute. lia.
  - reflexivity.
Defined.
